(** * torchelastic.multiprocessing.spawn: supervision of a worker group

    A shallow embedding of [src/torchelastic/multiprocessing/spawn.py]:
    the worker wrapper [_wrap], the context [ProcessContext] with its
    [join] operation, the deprecated alias [SpawnContext] and the launch
    entry points [start_processes] and [spawn].

    The operating system and the Python runtime are not part of the
    repository.  What the code asks of them is gathered in the record
    [Env] (the libc loader, the signal enumeration, the error-report
    collaborator, the identifiers handed out at process creation), and
    every child process is a passive record whose exit status is fixed
    by two fates: the one it meets when left running and the one it
    meets once a termination request was sent. *)

From stdpp Require Import gmap strings list.
From Stdlib Require Import ZArith Lia.
From Stdlib Require Import DecimalString.

Local Open Scope Z_scope.

(** ** Exceptions *)

(** [SubprocessException]: the fields shared by the three failure
    records.  [msg] is the argument handed to [Exception.__init__]; it
    is the Python value [None] when the error report is absent. *)
Record SubprocessException := mkSubprocessException {
  error_index : nat;
  error_pid : Z;
  msg : option string
}.

(** The exceptions that the module raises or lets through.  The first
    three are not instances of [Exception] in Python. *)
Inductive exn :=
| KeyboardInterrupt
| SystemExit (code : Z)
| GeneratorExit
| OtherException (class_name : string)
| OSError
| AssertionError
| KeyError (key : Z)
| IndexError
| ValueError
| TypeError
| RuntimeError
| WorkerRaised (base : SubprocessException)
| WorkerSignaled (base : SubprocessException) (signal_name : string)
| WorkerExited (base : SubprocessException) (exit_code : Z).

(** [isinstance(e, Exception)] *)
Definition is_Exception (e : exn) : bool :=
  match e with
  | KeyboardInterrupt | SystemExit _ | GeneratorExit => false
  | _ => true
  end.

(** Truth value of an [Optional[str]]: [None] and the empty string are
    false. *)
Definition truthy (s : option string) : bool :=
  match s with
  | Some (String _ _) => true
  | _ => false
  end.

(** The newline character, written [\n] in the source. *)
Definition nl : string := String (Ascii.ascii_of_nat 10) "".

Definition captured_errors_banner : string :=
  nl +:+ "**Captured errors**" +:+ nl.

(** [WorkerRaisedException.__init__] *)
Definition WorkerRaisedException
    (error_index : nat) (error_pid : Z) (msg : string)
    (error_report_msg : option string) : exn :=
  let msg :=
    if truthy error_report_msg
    then msg +:+ captured_errors_banner +:+ default "" error_report_msg
    else msg in
  WorkerRaised (mkSubprocessException error_index error_pid (Some msg)).

(** [WorkerSignaledException.__init__] *)
Definition WorkerSignaledException
    (error_index : nat) (error_pid : Z) (signal_name : string)
    (signal_trace_msg : option string) : exn :=
  WorkerSignaled
    (mkSubprocessException error_index error_pid signal_trace_msg)
    signal_name.

(** [WorkerExitedException.__init__] *)
Definition WorkerExitedException
    (error_index : nat) (error_pid : Z) (exit_code : Z)
    (exit_trace_msg : option string) : exn :=
  WorkerExited
    (mkSubprocessException error_index error_pid exit_trace_msg)
    exit_code.

(** The failure record carried by an exception, if it is one of the
    three [SubprocessException] subclasses. *)
Definition failure_record (e : exn) : option SubprocessException :=
  match e with
  | WorkerRaised b | WorkerSignaled b _ | WorkerExited b _ => Some b
  | _ => None
  end.

(** ** Results of a computation *)

Inductive res (A : Type) :=
| Ok (a : A)
| Raise (e : exn)
| Blocked.
Arguments Ok {A} a.
Arguments Raise {A} e.
Arguments Blocked {A}.

(** ** The environment *)

Record Env := mkEnv {
  (** [sys.version_info >= (3, 4)] *)
  _supports_context : bool;
  (** [ctypes.CDLL("libc.so.6")]: [None] when the library cannot be
      loaded, else its [prctl] entry applied to two arguments. *)
  libc : option (Z -> Z -> Z);
  (** [signal.Signals(n).name]; [None] when [n] is not a member. *)
  Signals : Z -> option string;
  (** [error_reporter.get_error] *)
  get_error : Z -> option string;
  (** start methods that [multiprocessing.get_context] accepts *)
  start_methods : list string;
  (** pid and sentinel given to the i-th process started *)
  new_pid : nat -> Z;
  new_sentinel : nat -> Z;
  (** exit status of the i-th child once a termination request reached
      it; [None] when it never exits *)
  on_terminate : nat -> option Z
}.

(** ** Processes and queues *)

(** [multiprocessing.Process], seen from the parent. *)
Record Process := mkProcess {
  pid : Z;
  sentinel : Z;
  (** [None] while the child has not been reaped *)
  exitcode : option Z;
  (** a termination request was sent *)
  term_sent : bool;
  (** status the child ends with when left running; [None]: never *)
  run_exit : option Z;
  (** status the child ends with after a termination request *)
  term_exit : option Z
}.

Definition with_exitcode (c : Z) (p : Process) : Process :=
  mkProcess (pid p) (sentinel p) (Some c) (term_sent p) (run_exit p) (term_exit p).

Definition with_term_sent (p : Process) : Process :=
  mkProcess (pid p) (sentinel p) (exitcode p) true (run_exit p) (term_exit p).

(** [Process.is_alive()] *)
Definition is_alive (p : Process) : bool :=
  match exitcode p with
  | None => true
  | Some _ => false
  end.

(** Status that a blocking [Process.join()] observes. *)
Definition fate (p : Process) : option Z :=
  match exitcode p with
  | Some c => Some c
  | None => if term_sent p then term_exit p else run_exit p
  end.

(** [multiprocessing.SimpleQueue]: messages in arrival order. *)
Abbreviation SimpleQueue := (list string) (only parsing).

(** ** ProcessContext *)

Record ProcessContext := mkProcessContext {
  error_queues : list SimpleQueue;
  processes : list Process;
  sentinels : gmap Z nat
}.

(** What the parent does to the outside world, in order. *)
Inductive event :=
| EvWarn
| EvConfigure
| EvStart (index : nat)
| EvWait
| EvJoin (index : nat)
| EvTerminate (index : nat)
| EvGetError (pid : Z)
| EvQueueEmpty (index : nat)
| EvQueueGet (index : nat).

Record state := mkState {
  ctx : ProcessContext;
  log : list event
}.

(** ** A state and error monad *)

Definition M (A : Type) : Type := state -> res A * state.

Definition ret {A} (a : A) : M A := fun s => (Ok a, s).

Definition bind {A B} (m : M A) (k : A -> M B) : M B :=
  fun s =>
    match m s with
    | (Ok a, s') => k a s'
    | (Raise e, s') => (Raise e, s')
    | (Blocked, s') => (Blocked, s')
    end.

Definition raise {A} (e : exn) : M A := fun s => (Raise e, s).
Definition block {A} : M A := fun s => (Blocked, s).
Definition emit (ev : event) : M unit :=
  fun s => (Ok tt, mkState (ctx s) (log s ++ [ev])%list).
Definition get_ctx : M ProcessContext := fun s => (Ok (ctx s), s).
Definition put_ctx (c : ProcessContext) : M unit :=
  fun s => (Ok tt, mkState c (log s)).

Notation "x <- m ;; k" := (bind m (fun x => k))
  (at level 100, m at next level, right associativity).
Notation "m ;;; k" := (bind m (fun _ => k))
  (at level 100, right associativity).

(** ** Operations of the runtime on the context's objects *)

Definition set_processes (ps : list Process) (c : ProcessContext) : ProcessContext :=
  mkProcessContext (error_queues c) ps (sentinels c).

Definition set_error_queues (qs : list SimpleQueue) (c : ProcessContext) : ProcessContext :=
  mkProcessContext qs (processes c) (sentinels c).

Definition set_sentinels (m : gmap Z nat) (c : ProcessContext) : ProcessContext :=
  mkProcessContext (error_queues c) (processes c) m.

(** [self.sentinels.pop(sentinel)] *)
Definition sentinels_pop (sentinel : Z) : M nat :=
  c <- get_ctx ;;
  match sentinels c !! sentinel with
  | Some index =>
      put_ctx (set_sentinels (delete sentinel (sentinels c)) c) ;;; ret index
  | None => raise (KeyError sentinel)
  end.

(** [self.processes[index]] *)
Definition process_at (index : nat) : M Process :=
  c <- get_ctx ;;
  match processes c !! index with
  | Some p => ret p
  | None => raise IndexError
  end.

Definition update_process (index : nat) (p : Process) : M unit :=
  c <- get_ctx ;;
  put_ctx (set_processes (<[index := p]> (processes c)) c).

(** [process.join()] on the process at [index]: returns once the child
    has exited, and never if it does not. *)
Definition Process_join (index : nat) : M unit :=
  p <- process_at index ;;
  emit (EvJoin index) ;;;
  match fate p with
  | Some c => update_process index (with_exitcode c p)
  | None => block
  end.

(** [process.terminate()] *)
Definition Process_terminate (index : nat) : M unit :=
  p <- process_at index ;;
  emit (EvTerminate index) ;;;
  update_process index (with_term_sent p).

(** [self.error_queues[index].empty()] *)
Definition queue_empty (index : nat) : M bool :=
  c <- get_ctx ;;
  match error_queues c !! index with
  | Some q =>
      emit (EvQueueEmpty index) ;;;
      ret (match q with [] => true | _ => false end)
  | None => raise IndexError
  end.

(** [self.error_queues[index].get()]: takes the oldest message, and
    waits for one when there is none. *)
Definition queue_get (index : nat) : M string :=
  c <- get_ctx ;;
  match error_queues c !! index with
  | Some q =>
      emit (EvQueueGet index) ;;;
      match q with
      | [] => block
      | m :: rest =>
          put_ctx (set_error_queues (<[index := rest]> (error_queues c)) c) ;;;
          ret m
      end
  | None => raise IndexError
  end.

(** ** ProcessContext.__init__ and pids *)

Definition _python_version_check (E : Env) : res unit :=
  if _supports_context E then Ok tt else Raise RuntimeError.

(** [{process.sentinel: index for index, process in enumerate(processes)}]:
    a later process overrides an earlier one with the same sentinel. *)
Definition sentinel_dict (processes : list Process) : gmap Z nat :=
  fold_left (fun m ip => <[sentinel ip.2 := ip.1]> m)
            (imap pair processes) ∅.

Definition ProcessContext__init__ (E : Env)
    (processes : list Process) (error_queues : list SimpleQueue)
    : res ProcessContext :=
  match _python_version_check E with
  | Ok _ => Ok (mkProcessContext error_queues processes (sentinel_dict processes))
  | Raise e => Raise e
  | Blocked => Blocked
  end.

Definition pids (c : ProcessContext) : list Z := map pid (processes c).

(** ** ProcessContext.join *)

(** [process.exitcode != 0] *)
Definition exitcode_nonzero (c : option Z) : bool :=
  match c with
  | Some 0 => false
  | _ => true
  end.

(** The loop over [ready]: the value is [error_index]. *)
Fixpoint scan_ready (ready : list Z) : M (option nat) :=
  match ready with
  | [] => ret None
  | sentinel :: ready' =>
      index <- sentinels_pop sentinel ;;
      Process_join index ;;;
      process <- process_at index ;;
      if exitcode_nonzero (exitcode process)
      then ret (Some index)
      else scan_ready ready'
  end.

(** The loop [for process in self.processes], by position. *)
Fixpoint terminate_all (indices : list nat) : M unit :=
  match indices with
  | [] => ret tt
  | i :: indices' =>
      process <- process_at i ;;
      (if is_alive process then Process_terminate i else ret tt) ;;;
      Process_join i ;;;
      terminate_all indices'
  end.

(** ["%d" % n] *)
Definition decimal (n : nat) : string :=
  NilZero.string_of_uint (Nat.to_uint n).

Definition error_header (error_index : nat) : string :=
  nl +:+ nl +:+ "-- Process " +:+ decimal error_index
     +:+ " terminated with the following error:" +:+ nl.

(** The part of [join] after the cascade: builds and raises the error. *)
Definition raise_failure (E : Env) (error_index : nat) : M bool :=
  p <- process_at error_index ;;
  let error_pid := pid p in
  emit (EvGetError error_pid) ;;;
  let subprocess_error_msg := get_error E error_pid in
  empty <- queue_empty error_index ;;
  if (empty : bool) then
    p <- process_at error_index ;;
    match exitcode p with
    | None => raise TypeError
    | Some exitcode =>
        if (exitcode <? 0)%Z then
          match Signals E (- exitcode) with
          | Some name =>
              raise (WorkerSignaledException
                       error_index error_pid name subprocess_error_msg)
          | None => raise ValueError
          end
        else
          raise (WorkerExitedException
                   error_index error_pid exitcode subprocess_error_msg)
    end
  else
    original_trace <- queue_get error_index ;;
    let msg := error_header error_index +:+ original_trace in
    raise (WorkerRaisedException error_index error_pid msg subprocess_error_msg).

(** [join]: [wait_result] is what
    [multiprocessing.connection.wait(self.sentinels.keys(), timeout)]
    gives: [Some ready] when it returns the list [ready], [None] when it
    never returns.  The timeout only decides which of these happens. *)
Definition join (E : Env) (wait_result : option (list Z)) : M bool :=
  c <- get_ctx ;;
  if bool_decide (size (sentinels c) = 0%nat) then ret true else
  emit EvWait ;;;
  match wait_result with
  | None => block
  | Some ready =>
      error_index <- scan_ready ready ;;
      match error_index with
      | None =>
          c <- get_ctx ;;
          ret (bool_decide (size (sentinels c) = 0%nat))
      | Some error_index =>
          c <- get_ctx ;;
          terminate_all (seq 0 (length (processes c))) ;;;
          raise_failure E error_index
      end
  end.

(** Running an operation on a context, from an empty log. *)
Definition run {A} (m : M A) (c : ProcessContext) : res A * state :=
  m (mkState c []).

(** ** The worker wrapper *)

Definition PR_SET_PDEATHSIG : Z := 1.
Definition SIGINT : Z := 2.
Definition SIGTERM : Z := 15.

(** [_pr_set_pdeathsig(sig)] *)
Definition _pr_set_pdeathsig (E : Env) (sig : Z) : res unit :=
  match libc E with
  | None => Raise OSError
  | Some prctl =>
      let rv := prctl PR_SET_PDEATHSIG sig in
      if (rv =? 0)%Z then Ok tt else Raise AssertionError
  end.

(** What a call [fn(i, *args)] does: it returns, it raises [e] (whose
    [traceback.format_exc()] text is [traceback]), or it never ends. *)
Inductive fn_outcome :=
| fn_returns
| fn_raises (e : exn) (traceback : string)
| fn_hangs.

(** The child after [_wrap]: how the call ended, what its queue holds,
    and whether [fn] was invoked. *)
Record wrapped := mkWrapped {
  outcome : res unit;
  queue_after : SimpleQueue;
  fn_invoked : bool
}.

(** [_wrap(fn, i, args, error_queue)]; [sys.exit(1)] raises
    [SystemExit(1)]. *)
Definition _wrap {Args : Type} (E : Env) (fn : nat -> Args -> fn_outcome)
    (i : nat) (args : Args) (error_queue : SimpleQueue) : wrapped :=
  match _pr_set_pdeathsig E SIGINT with
  | Raise e => mkWrapped (Raise e) error_queue false
  | Blocked => mkWrapped Blocked error_queue false
  | Ok _ =>
      match fn i args with
      | fn_returns => mkWrapped (Ok tt) error_queue true
      | fn_hangs => mkWrapped Blocked error_queue true
      | fn_raises KeyboardInterrupt _ => mkWrapped (Ok tt) error_queue true
      | fn_raises e traceback =>
          if is_Exception e
          then mkWrapped (Raise (SystemExit 1)) (error_queue ++ [traceback])%list true
          else mkWrapped (Raise e) error_queue true
      end
  end.

(** ** SpawnContext *)

(** The objects that reach [ProcessContext.__init__] as positional
    arguments. *)
Inductive pyobj :=
| ObjSelf
| ObjProcesses (ps : list Process)
| ObjQueues (qs : list SimpleQueue).

(** Calling [ProcessContext.__init__] with the positional arguments
    [positional], the instance first.  The signature
    [(self, processes, error_queues)] takes exactly three, and Python
    raises [TypeError] for any other number before the body runs.  A
    list of the wrong kind in a slot is outside the typed model and is
    reported as [TypeError] too. *)
Definition call_ProcessContext__init__ (E : Env) (positional : list pyobj)
    : res ProcessContext :=
  if bool_decide (length positional = 3%nat) then
    match positional with
    | [ObjSelf; ObjProcesses processes; ObjQueues error_queues] =>
        ProcessContext__init__ E processes error_queues
    | _ => Raise TypeError
    end
  else Raise TypeError.

(** [ProcessContext(processes, error_queues)] *)
Definition new_ProcessContext (E : Env)
    (processes : list Process) (error_queues : list SimpleQueue)
    : res ProcessContext * list event :=
  (call_ProcessContext__init__ E
     [ObjSelf; ObjProcesses processes; ObjQueues error_queues], []).

(** What [super(SpawnContext, self).__init__(self, processes,
    error_queues)] hands to the base initializer: the instance that
    [super()] binds, then the three arguments written in the call. *)
Definition SpawnContext_super_args
    (processes : list Process) (error_queues : list SimpleQueue)
    : list pyobj :=
  [ObjSelf; ObjSelf; ObjProcesses processes; ObjQueues error_queues].

(** [SpawnContext(processes, error_queues)]: the warning, then the call
    of the base initializer. *)
Definition SpawnContext__init__ (E : Env)
    (processes : list Process) (error_queues : list SimpleQueue)
    : res ProcessContext * list event :=
  (call_ProcessContext__init__ E
     (SpawnContext_super_args processes error_queues),
   [EvWarn]).

(** ** start_processes and spawn *)

(** Modelled from the spec: [error_reporter.exec_fn] is not among the
    sources.  The spec keeps the collaborator outside the core and
    reaches what it records only through [get_error], so [exec_fn]
    is taken to run the function it is given. *)
Definition exec_fn {A B : Type} (f : A -> B) (a : A) : B := f a.

(** Exit status that the runtime gives a child whose target ended as
    [r]: 0 on return, the low byte of the code of a [SystemExit], 1 for
    any other exception; none if the target never ends. *)
Definition exit_status (r : res unit) : option Z :=
  match r with
  | Ok _ => Some 0
  | Raise (SystemExit code) => Some (code mod 256)
  | Raise _ => Some 1
  | Blocked => None
  end.

(** [mp.SimpleQueue()], [mp.Process(...)] and [process.start()] for
    worker [i].  The queue is given the content the child will have
    written when it exits. *)
Definition start_worker {Args : Type} (E : Env)
    (fn : nat -> Args -> fn_outcome) (args : Args) (i : nat)
    : Process * SimpleQueue :=
  let w := exec_fn (fun error_queue => _wrap E fn i args error_queue) [] in
  (mkProcess (new_pid E i) (new_sentinel E i) None false
             (exit_status (outcome w)) (on_terminate E i),
   queue_after w).

(** The loop [for i in range(nprocs)]; the state holds the two lists
    being built. *)
Fixpoint start_workers {Args : Type} (E : Env)
    (fn : nat -> Args -> fn_outcome) (args : Args) (range : list nat)
    : M unit :=
  match range with
  | [] => ret tt
  | i :: range' =>
      let '(process, error_queue) := start_worker E fn args i in
      emit (EvStart i) ;;;
      c <- get_ctx ;;
      put_ctx (mkProcessContext (error_queues c ++ [error_queue])%list
                                (processes c ++ [process])%list ∅) ;;;
      start_workers E fn args range'
  end.

(** [while not context.join(): pass]; [waits] lists what the successive
    calls of [wait] return, and [wait] never returns after the last. *)
Fixpoint join_loop (E : Env) (waits : list (list Z)) : M unit :=
  match waits with
  | [] =>
      joined <- join E None ;;
      if (joined : bool) then ret tt else block
  | ready :: waits' =>
      joined <- join E (Some ready) ;;
      if (joined : bool) then ret tt else join_loop E waits'
  end.

Definition lift {A} (r : res A) : M A := fun s => (r, s).

(** [start_processes]: the value is [Some context] when [join] is
    false and [None] otherwise. *)
Definition start_processes {Args : Type} (E : Env)
    (fn : nat -> Args -> fn_outcome) (args : Args) (nprocs : Z)
    (join daemon : bool) (start_method : string)
    (waits : list (list Z)) : M (option ProcessContext) :=
  lift (_python_version_check E) ;;;
  emit EvConfigure ;;;
  (if bool_decide (start_method ∈ start_methods E)
   then ret tt else raise ValueError) ;;;
  put_ctx (mkProcessContext [] [] ∅) ;;;
  start_workers E fn args (seq 0 (Z.to_nat nprocs)) ;;;
  c <- get_ctx ;;
  context <- lift (ProcessContext__init__ E (processes c) (error_queues c)) ;;
  put_ctx context ;;;
  if negb join then ret (Some context) else
  join_loop E waits ;;;
  ret None.

(** [spawn] *)
Definition spawn {Args : Type} (E : Env)
    (fn : nat -> Args -> fn_outcome) (args : Args) (nprocs : Z)
    (join daemon : bool) (start_method : string)
    (waits : list (list Z)) : M (option ProcessContext) :=
  (if bool_decide (start_method = "spawn") then ret tt else emit EvWarn) ;;;
  start_processes E fn args nprocs join daemon "spawn" waits.

(** ** Substrings *)

Definition contains (M s : string) : Prop :=
  ∃ pre post, s = pre +:+ M +:+ post.

(** ** A concrete environment and contexts *)

Module Demo.

Definition signal_table : list (Z * string) :=
  [(1, "SIGHUP"); (2, "SIGINT"); (3, "SIGQUIT"); (6, "SIGABRT");
   (9, "SIGKILL"); (11, "SIGSEGV"); (15, "SIGTERM");
   (34, "SIGRTMIN"); (64, "SIGRTMAX")].

Definition lookup_signal (n : Z) : option string :=
  match filter (fun e => e.1 = n) signal_table with
  | e :: _ => Some e.2
  | [] => None
  end.

Definition reports (p : Z) : option string :=
  if (p =? 101)%Z then Some "core dumped" else None.

(** A Linux host: libc loads and [prctl] succeeds. *)
Definition linux : Env :=
  mkEnv true (Some (fun _ _ => 0)) lookup_signal reports
        ["fork"; "spawn"; "forkserver"]
        (fun i => 100 + Z.of_nat i) (fun i => 10 + Z.of_nat i)
        (fun _ => Some (-15)).

(** A host without [libc.so.6]. *)
Definition no_libc : Env :=
  mkEnv true None lookup_signal reports ["spawn"]
        (fun i => 100 + Z.of_nat i) (fun i => 10 + Z.of_nat i)
        (fun _ => Some (-15)).

(** A host whose [prctl] fails. *)
Definition prctl_fails : Env :=
  mkEnv true (Some (fun _ _ => -1)) lookup_signal reports ["spawn"]
        (fun i => 100 + Z.of_nat i) (fun i => 10 + Z.of_nat i)
        (fun _ => Some (-15)).

(** Worker 0 exits with status 7, worker 1 raises [ValueError("boom")],
    every other worker returns. *)
Definition boom_traceback : string :=
  "Traceback (most recent call last):" +:+ nl +:+ "ValueError: boom" +:+ nl.

Definition fn (i : nat) (_ : unit) : fn_outcome :=
  match i with
  | 0%nat => fn_raises (SystemExit 7) ""
  | 1%nat => fn_raises (OtherException "ValueError") boom_traceback
  | _ => fn_returns
  end.

(** The context that [start_processes] builds for three such workers
    (see [started_context3] below). *)
Definition workers3 : list Process :=
  [mkProcess 100 10 None false (Some 7) (Some (-15));
   mkProcess 101 11 None false (Some 1) (Some (-15));
   mkProcess 102 12 None false (Some 0) (Some (-15))].

Definition context3 : ProcessContext :=
  mkProcessContext [[]; [boom_traceback]; []] workers3 (sentinel_dict workers3).

(** A single worker killed by the real-time signal 35, which has no
    member in the signal enumeration. *)
Definition context_rt : ProcessContext :=
  mkProcessContext [[]] [mkProcess 100 10 (Some (-35)) false None None]
                   {[ 10 := 0%nat ]}.

(** The [join] call that finds worker 1 ready. *)
Definition failed3 : res bool * state := run (join linux (Some [11])) context3.

(** Two workers that return. *)
Definition quiet (i : nat) (_ : unit) : fn_outcome := fn_returns.

Definition workers2 : list Process :=
  [mkProcess 100 10 None false (Some 0) (Some (-15));
   mkProcess 101 11 None false (Some 0) (Some (-15))].

Definition context2 : ProcessContext :=
  mkProcessContext [[]; []] workers2 (sentinel_dict workers2).

(** The same context once both workers were joined. *)
Definition joined2 : ProcessContext :=
  ctx (run (join linux (Some [11; 10])) context2).2.

End Demo.

(** ** Relations between the state before and after an operation *)

(** [m] keeps [R]: however [m] ends, the states around it are related. *)
Definition preserves {A} (R : state -> state -> Prop) (m : M A) : Prop :=
  ∀ s r s', m s = (r, s') → R s s'.

(** The failure channels are left as they were. *)
Definition queues_kept (s s' : state) : Prop :=
  error_queues (ctx s') = error_queues (ctx s).

(** The mapping lost entries only, all of them for keys in [ready]. *)
Definition shrinks (ready : list Z) (s s' : state) : Prop :=
  sentinels (ctx s') ⊆ sentinels (ctx s)
  ∧ ∀ k, is_Some (sentinels (ctx s) !! k) →
         sentinels (ctx s') !! k = None → k ∈ ready.

(** Every process keeps its place, its pid and its fate under
    termination, and an exit status once observed stays. *)
Definition processes_evolve (s s' : state) : Prop :=
  length (processes (ctx s')) = length (processes (ctx s))
  ∧ ∀ i p, processes (ctx s) !! i = Some p →
      ∃ p', processes (ctx s') !! i = Some p'
            ∧ (pid p' = pid p ∧ term_exit p' = term_exit p)
            ∧ (∀ c, exitcode p = Some c → exitcode p' = Some c).

(** No process changed the exit status it is bound to end with. *)
Definition fates_kept (s s' : state) : Prop :=
  ∀ i p, processes (ctx s) !! i = Some p →
    ∃ p', processes (ctx s') !! i = Some p' ∧ fate p' = fate p.

(** The log grew by events that satisfy [P]. *)
Definition log_adds (P : event -> Prop) (s s' : state) : Prop :=
  ∃ l, log s' = (log s ++ l)%list ∧ Forall P l.

Definition is_queue_event (ev : event) : Prop :=
  match ev with
  | EvQueueEmpty _ | EvQueueGet _ => True
  | _ => False
  end.

(** The worker that a [join] call designates as failing when [wait]
    returns [ready]: the value of [error_index] after the scan. *)
Definition designated (ready : list Z) (c : ProcessContext) : option nat :=
  if bool_decide (size (sentinels c) = 0%nat) then None else
  match scan_ready ready (mkState c [EvWait]) with
  | (Ok (Some k), _) => Some k
  | _ => None
  end.

(** The state in which the scan leaves the context. *)
Definition after_scan (ready : list Z) (c : ProcessContext) : state :=
  (scan_ready ready (mkState c [EvWait])).2.

(** A process that a blocking [Process.join()] is sure to see exit once
    it has been sent a termination request. *)
Definition stoppable (p : Process) : Prop :=
  is_Some (exitcode p) ∨ is_Some (term_exit p).

(** The text of a message; the Python value [None] has none. *)
Definition msg_text (m : option string) : string := default "" m.

(** The context after a series of [join] calls, whatever each of them
    returned or raised. *)
Fixpoint join_calls (E : Env) (waits : list (option (list Z)))
    (c : ProcessContext) : ProcessContext :=
  match waits with
  | [] => c
  | w :: waits' => join_calls E waits' (ctx (run (join E w) c).2)
  end.

(** The context that [start_processes] assembles for [n] workers. *)
Definition launched {Args : Type} (E : Env)
    (fn : nat -> Args -> fn_outcome) (args : Args) (n : nat) : ProcessContext :=
  let workers := map (start_worker E fn args) (seq 0 n) in
  mkProcessContext (map snd workers) (map fst workers)
                   (sentinel_dict (map fst workers)).

(** [m] treats the log as a journal: what it does and returns does not
    depend on what was logged before, and it only adds to the log. *)
Definition journals {A} (m : M A) : Prop :=
  ∀ c l, m (mkState c l)
         = ((m (mkState c [])).1,
            mkState (ctx (m (mkState c [])).2)
                    (l ++ log (m (mkState c [])).2)%list).

(** The events that a [join] call logs when no worker is designated. *)
Definition is_wait_or_join (ev : event) : Prop :=
  match ev with
  | EvWait | EvJoin _ => True
  | _ => False
  end.

(** The events that take a message from a failure channel. *)
Definition is_queue_get (ev : event) : bool :=
  match ev with
  | EvQueueGet _ => true
  | _ => false
  end.

(** * Properties *)

(** ** Running a bind *)

Lemma bind_Ok {A B} (m : M A) (k : A -> M B) s a s1 :
  m s = (Ok a, s1) → bind m k s = k a s1.
Proof. unfold bind. by intros ->. Qed.

Lemma bind_inv {A B} (m : M A) (k : A -> M B) s r s' :
  bind m k s = (r, s') →
  (∃ a s1, m s = (Ok a, s1) ∧ k a s1 = (r, s'))
  ∨ (∃ e, m s = (Raise e, s') ∧ r = Raise e)
  ∨ (m s = (Blocked, s') ∧ r = Blocked).
Proof.
  unfold bind. destruct (m s) as [[a|e|] s1]; intros H.
  - left. eauto.
  - right. left. exists e. by inversion H.
  - right. right. by inversion H.
Qed.

(** ** Relations kept by every step *)

Section Preservation.

Variable R : state -> state -> Prop.
Hypothesis R_refl : ∀ s, R s s.
Hypothesis R_trans : ∀ s1 s2 s3, R s1 s2 → R s2 s3 → R s1 s3.

Lemma preserves_ret {A} (a : A) : preserves R (ret a).
Proof using R_refl. intros s r s' H. inversion H. apply R_refl. Qed.

Lemma preserves_raise {A} e : preserves R (@raise A e).
Proof using R_refl. intros s r s' H. inversion H. apply R_refl. Qed.

Lemma preserves_block {A} : preserves R (@block A).
Proof using R_refl. intros s r s' H. inversion H. apply R_refl. Qed.

Lemma preserves_lift {A} (x : res A) : preserves R (lift x).
Proof using R_refl. intros s r s' H. inversion H. apply R_refl. Qed.

Lemma preserves_get_ctx : preserves R get_ctx.
Proof using R_refl. intros s r s' H. inversion H. apply R_refl. Qed.

Lemma preserves_process_at i : preserves R (process_at i).
Proof using R_refl.
  intros s r s' H. unfold process_at, bind, get_ctx, ret, raise in H.
  destruct (processes (ctx s) !! i); inversion H; apply R_refl.
Qed.

Lemma preserves_bind {A B} (m : M A) (k : A -> M B) :
  preserves R m → (∀ a, preserves R (k a)) → preserves R (bind m k).
Proof using R_refl R_trans.
  intros Hm Hk s r s' H.
  destruct (bind_inv _ _ _ _ _ H) as [(a & s1 & H1 & H2)|[(e & H1 & _)|[H1 _]]].
  - eapply R_trans; [eapply Hm | eapply Hk]; eauto.
  - eapply Hm; eauto.
  - eapply Hm; eauto.
Qed.

End Preservation.

(** Splits a goal [preserves R m] along the shape of [m]; [leaf] closes
    the operations that are specific to [R]. *)
Ltac preserve_with Hrefl Htrans leaf :=
  repeat first
    [ assumption
    | leaf
    | apply (preserves_ret _ Hrefl)
    | apply (preserves_raise _ Hrefl)
    | apply (preserves_block _ Hrefl)
    | apply (preserves_lift _ Hrefl)
    | apply (preserves_get_ctx _ Hrefl)
    | apply (preserves_process_at _ Hrefl)
    | apply (preserves_bind _ Hrefl Htrans); [ | intros ? ]
    | match goal with
      | |- preserves _ (match ?x with _ => _ end) => destruct x
      end ].

(** Runs one of the runtime operations in hypothesis [H]. *)
Ltac run_prim H :=
  unfold sentinels_pop, Process_join, Process_terminate, update_process,
    process_at, queue_empty, queue_get, emit, put_ctx, get_ctx, bind, ret,
    raise, block in H;
  repeat case_match; simplify_eq; simpl in *.

(** ** The failure channels outside the last phase *)

Lemma queues_kept_refl s : queues_kept s s.
Proof. done. Qed.

Lemma queues_kept_trans s1 s2 s3 :
  queues_kept s1 s2 → queues_kept s2 s3 → queues_kept s1 s3.
Proof. unfold queues_kept. congruence. Qed.

Lemma queues_kept_emit ev : preserves queues_kept (emit ev).
Proof. intros s r s' H. run_prim H. done. Qed.

Lemma queues_kept_sentinels_pop k : preserves queues_kept (sentinels_pop k).
Proof. intros s r s' H. run_prim H; done. Qed.

Lemma queues_kept_Process_join i : preserves queues_kept (Process_join i).
Proof. intros s r s' H. run_prim H; done. Qed.

Lemma queues_kept_Process_terminate i :
  preserves queues_kept (Process_terminate i).
Proof. intros s r s' H. run_prim H; done. Qed.

Ltac queues_kept_tac :=
  preserve_with queues_kept_refl queues_kept_trans
    ltac:(first [ apply queues_kept_emit
                | apply queues_kept_sentinels_pop
                | apply queues_kept_Process_join
                | apply queues_kept_Process_terminate ]).

Lemma queues_kept_scan_ready ready : preserves queues_kept (scan_ready ready).
Proof.
  induction ready as [|k ready IH]; simpl; queues_kept_tac.
Qed.

Lemma queues_kept_terminate_all indices :
  preserves queues_kept (terminate_all indices).
Proof.
  induction indices as [|i indices IH]; simpl; queues_kept_tac.
Qed.

(** ** The sentinel mapping *)

Lemma shrinks_same ready s s' :
  sentinels (ctx s') = sentinels (ctx s) → shrinks ready s s'.
Proof.
  intros Heq. split; rewrite Heq; [done|].
  intros k [i Hi] Hk. congruence.
Qed.

Lemma shrinks_refl ready s : shrinks ready s s.
Proof. by apply shrinks_same. Qed.

Lemma shrinks_trans ready s1 s2 s3 :
  shrinks ready s1 s2 → shrinks ready s2 s3 → shrinks ready s1 s3.
Proof.
  intros [Hsub12 Hrem12] [Hsub23 Hrem23]. split.
  - by transitivity (sentinels (ctx s2)).
  - intros k Hk1 Hk3.
    destruct (sentinels (ctx s2) !! k) as [i|] eqn:Hk2.
    + apply Hrem23; eauto.
    + by apply Hrem12.
Qed.

Lemma shrinks_emit ready ev : preserves (shrinks ready) (emit ev).
Proof. intros s r s' H. run_prim H. by apply shrinks_same. Qed.

Lemma shrinks_sentinels_pop ready k :
  k ∈ ready → preserves (shrinks ready) (sentinels_pop k).
Proof.
  intros Hin s r s' H. run_prim H; [|by apply shrinks_refl].
  split; simpl.
  - apply delete_subseteq.
  - intros k' Hk' Hdel. destruct (decide (k' = k)) as [->|Hne]; [done|].
    rewrite lookup_delete_ne in Hdel by done.
    destruct Hk' as [i Hi]. congruence.
Qed.

Lemma shrinks_Process_join ready i : preserves (shrinks ready) (Process_join i).
Proof. intros s r s' H. run_prim H; by apply shrinks_same. Qed.

Lemma shrinks_Process_terminate ready i :
  preserves (shrinks ready) (Process_terminate i).
Proof. intros s r s' H. run_prim H; by apply shrinks_same. Qed.

Lemma shrinks_queue_empty ready i : preserves (shrinks ready) (queue_empty i).
Proof. intros s r s' H. run_prim H; by apply shrinks_same. Qed.

Lemma shrinks_queue_get ready i : preserves (shrinks ready) (queue_get i).
Proof. intros s r s' H. run_prim H; by apply shrinks_same. Qed.

Ltac shrinks_tac ready :=
  preserve_with (shrinks_refl ready) (shrinks_trans ready)
    ltac:(first [ apply shrinks_emit
                | apply shrinks_Process_join
                | apply shrinks_Process_terminate
                | apply shrinks_queue_empty
                | apply shrinks_queue_get ]).

Lemma shrinks_scan_ready ready l :
  l ⊆ ready → preserves (shrinks ready) (scan_ready l).
Proof.
  induction l as [|k l IH]; intros Hsub; simpl.
  - shrinks_tac ready.
  - assert (k ∈ ready) by (apply Hsub; left).
    assert (preserves (shrinks ready) (scan_ready l))
      by (apply IH; intros x Hx; apply Hsub; by right).
    assert (preserves (shrinks ready) (sentinels_pop k))
      by by apply shrinks_sentinels_pop.
    shrinks_tac ready.
Qed.

Lemma shrinks_terminate_all ready indices :
  preserves (shrinks ready) (terminate_all indices).
Proof.
  induction indices as [|i indices IH]; simpl; shrinks_tac ready.
Qed.

Lemma shrinks_raise_failure E ready k :
  preserves (shrinks ready) (raise_failure E k).
Proof. unfold raise_failure. shrinks_tac ready. Qed.

Lemma shrinks_join E ready :
  preserves (shrinks ready) (join E (Some ready)).
Proof.
  unfold join.
  pose proof (shrinks_scan_ready ready ready (reflexivity _)).
  preserve_with (shrinks_refl ready) (shrinks_trans ready)
    ltac:(first [ apply shrinks_emit
                | apply shrinks_terminate_all
                | apply shrinks_raise_failure ]).
Qed.

(** ** Processes keep their pid and their exit status *)

Lemma processes_evolve_same s s' :
  processes (ctx s') = processes (ctx s) → processes_evolve s s'.
Proof.
  intros Heq. split; rewrite Heq; [done|].
  intros i p Hp. exists p. done.
Qed.

Lemma processes_evolve_refl s : processes_evolve s s.
Proof. by apply processes_evolve_same. Qed.

Lemma processes_evolve_trans s1 s2 s3 :
  processes_evolve s1 s2 → processes_evolve s2 s3 → processes_evolve s1 s3.
Proof.
  intros [Hlen12 H12] [Hlen23 H23]. split; [congruence|].
  intros i p Hp.
  destruct (H12 i p Hp) as (p2 & Hp2 & [Hpid2 Hte2] & Hex2).
  destruct (H23 i p2 Hp2) as (p3 & Hp3 & [Hpid3 Hte3] & Hex3).
  exists p3. split_and!; [done|congruence|congruence|auto].
Qed.

Lemma processes_evolve_update s i p p' l :
  processes (ctx s) !! i = Some p →
  pid p' = pid p ∧ term_exit p' = term_exit p →
  (∀ c, exitcode p = Some c → exitcode p' = Some c) →
  processes_evolve s
    (mkState (set_processes (<[i := p']> (processes (ctx s))) (ctx s)) l).
Proof.
  intros Hp Hpid Hex. split; simpl; [by rewrite length_insert|].
  intros j q Hq. destruct (decide (j = i)) as [->|Hne].
  - exists p'. rewrite list_lookup_insert_eq by (by eapply lookup_lt_Some).
    assert (q = p) by congruence. subst q. done.
  - exists q. by rewrite list_lookup_insert_ne.
Qed.

Lemma with_exitcode_fate p c c0 :
  fate p = Some c → exitcode p = Some c0 → exitcode (with_exitcode c p) = Some c0.
Proof. unfold fate. intros Hf He. rewrite He in Hf. simpl. congruence. Qed.

Lemma processes_evolve_emit ev : preserves processes_evolve (emit ev).
Proof. intros s r s' H. run_prim H. by apply processes_evolve_same. Qed.

Lemma processes_evolve_sentinels_pop k :
  preserves processes_evolve (sentinels_pop k).
Proof. intros s r s' H. run_prim H; by apply processes_evolve_same. Qed.

Lemma processes_evolve_Process_join i :
  preserves processes_evolve (Process_join i).
Proof.
  intros s r s' H. run_prim H; try by apply processes_evolve_same.
  eapply processes_evolve_update; eauto using with_exitcode_fate.
Qed.

Lemma processes_evolve_Process_terminate i :
  preserves processes_evolve (Process_terminate i).
Proof.
  intros s r s' H. run_prim H; try by apply processes_evolve_same.
  eapply processes_evolve_update; eauto.
Qed.

Lemma processes_evolve_queue_empty i : preserves processes_evolve (queue_empty i).
Proof. intros s r s' H. run_prim H; by apply processes_evolve_same. Qed.

Lemma processes_evolve_queue_get i : preserves processes_evolve (queue_get i).
Proof. intros s r s' H. run_prim H; by apply processes_evolve_same. Qed.

Ltac processes_evolve_tac :=
  preserve_with processes_evolve_refl processes_evolve_trans
    ltac:(first [ apply processes_evolve_emit
                | apply processes_evolve_sentinels_pop
                | apply processes_evolve_Process_join
                | apply processes_evolve_Process_terminate
                | apply processes_evolve_queue_empty
                | apply processes_evolve_queue_get ]).

Lemma processes_evolve_scan_ready ready :
  preserves processes_evolve (scan_ready ready).
Proof. induction ready as [|k ready IH]; simpl; processes_evolve_tac. Qed.

Lemma processes_evolve_terminate_all indices :
  preserves processes_evolve (terminate_all indices).
Proof. induction indices as [|i indices IH]; simpl; processes_evolve_tac. Qed.

Lemma processes_evolve_raise_failure E k :
  preserves processes_evolve (raise_failure E k).
Proof. unfold raise_failure. processes_evolve_tac. Qed.

(** ** What the log gains *)

Lemma log_adds_refl P s : log_adds P s s.
Proof. exists []. by rewrite app_nil_r. Qed.

Lemma log_adds_trans P s1 s2 s3 :
  log_adds P s1 s2 → log_adds P s2 s3 → log_adds P s1 s3.
Proof.
  intros (l1 & H1 & HP1) (l2 & H2 & HP2). exists (l1 ++ l2)%list. split.
  - by rewrite H2, H1, app_assoc.
  - by apply Forall_app.
Qed.

Lemma log_adds_same P s s' : log s' = log s → log_adds P s s'.
Proof. intros H. exists []. by rewrite app_nil_r. Qed.

Lemma log_adds_emit (P : event -> Prop) ev : P ev → preserves (log_adds P) (emit ev).
Proof. intros HP s r s' H. run_prim H. exists [ev]. split; [done|]. by constructor. Qed.

Lemma log_adds_sentinels_pop P k : preserves (log_adds P) (sentinels_pop k).
Proof. intros s r s' H. run_prim H; by apply log_adds_same. Qed.

Lemma log_adds_Process_join (P : event -> Prop) i :
  P (EvJoin i) → preserves (log_adds P) (Process_join i).
Proof.
  intros HP s r s' H. run_prim H; try by apply log_adds_same.
  all: exists [EvJoin i]; split; [done|by constructor].
Qed.

Lemma log_adds_Process_terminate (P : event -> Prop) i :
  P (EvTerminate i) → preserves (log_adds P) (Process_terminate i).
Proof.
  intros HP s r s' H. run_prim H; try by apply log_adds_same.
  all: exists [EvTerminate i]; split; [done|by constructor].
Qed.

Lemma log_adds_scan_ready (P : event -> Prop) ready :
  (∀ i, P (EvJoin i)) → preserves (log_adds P) (scan_ready ready).
Proof.
  intros HP. induction ready as [|k ready IH]; simpl;
    preserve_with (log_adds_refl P) (log_adds_trans P)
      ltac:(first [ apply log_adds_sentinels_pop
                  | apply log_adds_Process_join; apply HP ]).
Qed.

Lemma log_adds_terminate_all (P : event -> Prop) indices :
  (∀ i, P (EvJoin i)) → (∀ i, P (EvTerminate i)) →
  preserves (log_adds P) (terminate_all indices).
Proof.
  intros HJ HT. induction indices as [|k indices IH]; simpl;
    preserve_with (log_adds_refl P) (log_adds_trans P)
      ltac:(first [ apply log_adds_Process_terminate; apply HT
                  | apply log_adds_Process_join; apply HJ ]).
Qed.

(** ** Single operations that succeed *)

Lemma process_at_Ok i s p s' :
  process_at i s = (Ok p, s') → s' = s ∧ processes (ctx s) !! i = Some p.
Proof. intros H. run_prim H. done. Qed.

Lemma Process_join_Ok i s s' :
  Process_join i s = (Ok tt, s') →
  ∃ p c, processes (ctx s) !! i = Some p ∧ fate p = Some c
         ∧ s' = mkState
                  (set_processes (<[i := with_exitcode c p]> (processes (ctx s)))
                                 (ctx s))
                  (log s ++ [EvJoin i])%list.
Proof. intros H. run_prim H. eauto. Qed.

Lemma Process_terminate_Ok i s s' :
  Process_terminate i s = (Ok tt, s') →
  ∃ p, processes (ctx s) !! i = Some p
       ∧ s' = mkState
                (set_processes (<[i := with_term_sent p]> (processes (ctx s)))
                               (ctx s))
                (log s ++ [EvTerminate i])%list.
Proof. intros H. run_prim H. eauto. Qed.

Lemma exitcode_nonzero_true c :
  exitcode_nonzero (Some c) = true → c ≠ 0.
Proof. intros H ->. done. Qed.

(** After [process.join()] returned, the process at [i] has an exit
    status. *)
Lemma Process_join_exited i s s' :
  Process_join i s = (Ok tt, s') →
  ∃ p c, processes (ctx s') !! i = Some p ∧ exitcode p = Some c.
Proof.
  intros H. apply Process_join_Ok in H as (p & c & Hp & Hf & ->). simpl.
  exists (with_exitcode c p), c.
  by rewrite list_lookup_insert_eq by (by eapply lookup_lt_Some).
Qed.

(** ** The scan: the designated worker has exited with a status that
    is not zero *)

Lemma scan_ready_designates ready s k s1 :
  scan_ready ready s = (Ok (Some k), s1) →
  ∃ p c, processes (ctx s1) !! k = Some p ∧ exitcode p = Some c ∧ c ≠ 0.
Proof.
  revert s. induction ready as [|sentinel ready IH]; intros s H; simpl in H.
  { by inversion H. }
  apply bind_inv in H as [(index & s2 & Hpop & H)|[(e & _ & ?)|[_ ?]]]; [|done..].
  apply bind_inv in H as [([] & s3 & Hjoin & H)|[(e & _ & ?)|[_ ?]]]; [|done..].
  apply bind_inv in H as [(p & s4 & Hat & H)|[(e & _ & ?)|[_ ?]]]; [|done..].
  destruct (exitcode_nonzero (exitcode p)) eqn:Hnz.
  - inversion H; subst. run_prim Hat.
    apply Process_join_exited in Hjoin as (p' & c & Hp' & Hc).
    exists p', c. split_and!; [done..|].
    assert (p = p') by congruence. subst p'. rewrite Hc in Hnz.
    by apply exitcode_nonzero_true.
  - eapply IH; eauto.
Qed.

(** ** The cascade *)

(** One round of the loop body, for the process at [i]. *)
Lemma cascade_round i s p sa sb :
  processes (ctx s) !! i = Some p →
  (if is_alive p then Process_terminate i else ret tt) s = (Ok tt, sa) →
  Process_join i sa = (Ok tt, sb) →
  (∀ j, j ≠ i → processes (ctx sb) !! j = processes (ctx s) !! j)
  ∧ (∃ p', processes (ctx sb) !! i = Some p' ∧ is_alive p' = false)
  ∧ (if is_alive p
     then log sb = (log s ++ [EvTerminate i; EvJoin i])%list
     else log sb = (log s ++ [EvJoin i])%list).
Proof.
  intros Hp Hterm Hjoin.
  pose proof (Process_join_exited _ _ _ Hjoin) as (p' & c & Hp' & Hc).
  apply Process_join_Ok in Hjoin as (q & c' & Hq & Hf & ->).
  destruct (is_alive p).
  - apply Process_terminate_Ok in Hterm as (q' & Hq' & ->). simpl in *.
    split_and!.
    + intros j Hne. by rewrite !list_lookup_insert_ne.
    + exists p'. unfold is_alive. by rewrite Hc.
    + by rewrite <- app_assoc.
  - inversion Hterm; subst sa. simpl. split_and!.
    + intros j Hne. by rewrite list_lookup_insert_ne.
    + exists p'. unfold is_alive. by rewrite Hc.
    + done.
Qed.

Lemma terminate_all_cascade indices s s' :
  NoDup indices →
  terminate_all indices s = (Ok tt, s') →
  ∀ i, i ∈ indices →
    (∃ p', processes (ctx s') !! i = Some p' ∧ is_alive p' = false)
    ∧ (∀ p, processes (ctx s) !! i = Some p → is_alive p = true →
         ∃ l1 l2, log s' = (log s ++ l1 ++ [EvTerminate i; EvJoin i] ++ l2)%list).
Proof.
  revert s. induction indices as [|i0 indices IH]; intros s Hnd H i Hi.
  { by apply elem_of_nil in Hi. }
  apply NoDup_cons in Hnd as [Hnotin Hnd]. simpl in H.
  apply bind_inv in H as [(p0 & s0 & Hat & H)|[(e & _ & ?)|[_ ?]]]; [|done..].
  apply bind_inv in H as [([] & sa & Hterm & H)|[(e & _ & ?)|[_ ?]]]; [|done..].
  apply bind_inv in H as [([] & sb & Hjoin & H)|[(e & _ & ?)|[_ ?]]]; [|done..].
  apply process_at_Ok in Hat as [-> Hp0].
  destruct (cascade_round _ _ _ _ _ Hp0 Hterm Hjoin)
    as (Hother & (p' & Hp' & Hdead) & Hlog).
  pose proof (processes_evolve_terminate_all _ _ _ _ H) as [_ Hev].
  pose proof (log_adds_terminate_all (fun _ => True) indices
                ltac:(done) ltac:(done) _ _ _ H) as (l & Hl & _).
  apply elem_of_cons in Hi as [->|Hi].
  - split.
    + destruct (Hev _ _ Hp') as (p'' & Hp'' & _ & Hex).
      exists p''. split; [done|].
      unfold is_alive in *. destruct (exitcode p') as [c|] eqn:Hc; [|done].
      by rewrite (Hex c).
    + intros p Hp Halive. assert (p = p0) by congruence. subst p.
      rewrite Halive in Hlog. exists [], l. rewrite Hl, Hlog. simpl.
      by rewrite <- app_assoc.
  - assert (i ≠ i0) by (intros ->; done).
    destruct (IH sb Hnd H i Hi) as [Hfin Htr]. split; [done|].
    intros p Hp Halive. rewrite <- Hother in Hp by done.
    destruct (Htr p Hp Halive) as (l1 & l2 & Hlog').
    destruct (is_alive p0).
    + exists ([EvTerminate i0; EvJoin i0] ++ l1)%list, l2.
      rewrite Hlog', Hlog. by rewrite <- !app_assoc.
    + exists ([EvJoin i0] ++ l1)%list, l2.
      rewrite Hlog', Hlog. by rewrite <- !app_assoc.
Qed.

(** ** The scan leaves the fates alone *)

Lemma fates_kept_same s s' :
  processes (ctx s') = processes (ctx s) → fates_kept s s'.
Proof. intros Heq i p Hp. exists p. by rewrite Heq. Qed.

Lemma fates_kept_refl s : fates_kept s s.
Proof. by apply fates_kept_same. Qed.

Lemma fates_kept_trans s1 s2 s3 :
  fates_kept s1 s2 → fates_kept s2 s3 → fates_kept s1 s3.
Proof.
  intros H12 H23 i p Hp.
  destruct (H12 i p Hp) as (p2 & Hp2 & Hf2).
  destruct (H23 i p2 Hp2) as (p3 & Hp3 & Hf3).
  exists p3. split; [done|congruence].
Qed.

Lemma fate_with_exitcode p c : fate p = Some c → fate (with_exitcode c p) = fate p.
Proof. by intros ->. Qed.

Lemma fates_kept_Process_join i : preserves fates_kept (Process_join i).
Proof.
  intros s r s' H. unfold Process_join in H.
  apply bind_inv in H as [(p & s0 & Hat & H)|[(e & Hat & _)|[Hat _]]];
    [|run_prim Hat; by apply fates_kept_same..].
  apply process_at_Ok in Hat as [-> Hp].
  run_prim H; try by apply fates_kept_same.
  intros j q Hq. simpl. destruct (decide (j = i)) as [->|Hne].
  - eexists. rewrite list_lookup_insert_eq by (by eapply lookup_lt_Some).
    split; [done|]. assert (q = p) by congruence. subst q.
    by apply fate_with_exitcode.
  - exists q. by rewrite list_lookup_insert_ne.
Qed.

Lemma fates_kept_sentinels_pop k : preserves fates_kept (sentinels_pop k).
Proof. intros s r s' H. run_prim H; by apply fates_kept_same. Qed.

Lemma fates_kept_scan_ready ready : preserves fates_kept (scan_ready ready).
Proof.
  induction ready as [|k ready IH]; simpl;
    preserve_with fates_kept_refl fates_kept_trans
      ltac:(first [ apply fates_kept_sentinels_pop
                  | apply fates_kept_Process_join ]).
Qed.

(** ** The cascade does not raise *)

Lemma terminate_all_no_raise indices s e s' :
  (∀ i, i ∈ indices → (i < length (processes (ctx s)))%nat) →
  terminate_all indices s ≠ (Raise e, s').
Proof.
  revert s. induction indices as [|i indices IH]; intros s Hin H; simpl in H.
  { by inversion H. }
  assert (i < length (processes (ctx s)))%nat as Hi by (apply Hin; left).
  apply lookup_lt_is_Some in Hi as [p Hp].
  apply bind_inv in H as [(p0 & s0 & Hat & H)|[(e0 & Hat & _)|[_ ?]]];
    [|by run_prim Hat|done].
  apply process_at_Ok in Hat as [-> Hp0].
  assert (∀ r sa,
    (if is_alive p0 then Process_terminate i else ret tt) s = (r, sa) →
    (∃ u, r = Ok u) ∧ processes_evolve s sa) as Hterm_ok.
  { intros r sa Hterm. destruct (is_alive p0).
    - split; [|by eapply processes_evolve_Process_terminate].
      run_prim Hterm. eauto.
    - inversion Hterm; subst. split; [eauto|apply processes_evolve_refl]. }
  apply bind_inv in H as [([] & sa & Hterm & H)|[(e0 & Hterm & _)|[_ ?]]];
    [|by apply Hterm_ok in Hterm as [[u ?] _]|done].
  apply Hterm_ok in Hterm as [_ [Hlen _]].
  apply bind_inv in H as [([] & sb & Hjoin & H)|[(e0 & Hjoin & _)|[_ ?]]];
    [| |done].
  - pose proof (processes_evolve_Process_join _ _ _ _ Hjoin) as [Hlen' _].
    eapply IH; [|exact H].
    intros j Hj. rewrite Hlen', Hlen. apply Hin. by right.
  - assert (is_Some (processes (ctx sa) !! i)) as [q Hq].
    { apply lookup_lt_is_Some. rewrite Hlen. by eapply lookup_lt_Some. }
    by run_prim Hjoin.
Qed.

(** ** The last phase, computed *)

Lemma raise_failure_run E k s p q :
  processes (ctx s) !! k = Some p →
  error_queues (ctx s) !! k = Some q →
  raise_failure E k s =
  match q with
  | [] =>
      (match exitcode p with
       | None => Raise TypeError
       | Some c =>
           if (c <? 0)%Z then
             match Signals E (- c) with
             | Some name =>
                 Raise (WorkerSignaledException k (pid p) name
                                                (get_error E (pid p)))
             | None => Raise ValueError
             end
           else Raise (WorkerExitedException k (pid p) c (get_error E (pid p)))
       end,
       mkState (ctx s) (log s ++ [EvGetError (pid p); EvQueueEmpty k])%list)
  | original_trace :: rest =>
      (Raise (WorkerRaisedException k (pid p)
                (error_header k +:+ original_trace) (get_error E (pid p))),
       mkState (set_error_queues (<[k := rest]> (error_queues (ctx s))) (ctx s))
               (log s ++ [EvGetError (pid p); EvQueueEmpty k; EvQueueGet k])%list)
  end.
Proof.
  intros Hp Hq.
  unfold raise_failure, process_at, queue_empty, queue_get, emit, put_ctx,
    get_ctx, bind, ret, raise. simpl.
  rewrite Hp. simpl. rewrite Hq. simpl.
  destruct q as [|tb rest]; simpl.
  - rewrite Hp. rewrite <- !app_assoc. simpl.
    destruct (exitcode p) as [c|]; [|done].
    destruct (c <? 0)%Z; [|done]. by destruct (Signals E (- c)).
  - rewrite Hq. simpl. by rewrite <- !app_assoc.
Qed.

Lemma raise_failure_no_queue E k s p :
  processes (ctx s) !! k = Some p →
  error_queues (ctx s) !! k = None →
  raise_failure E k s =
  (Raise IndexError, mkState (ctx s) (log s ++ [EvGetError (pid p)])%list).
Proof.
  intros Hp Hq.
  unfold raise_failure, process_at, queue_empty, emit, get_ctx, bind, ret,
    raise. simpl.
  rewrite Hp. simpl. by rewrite Hq.
Qed.

(** ** [join] when a worker is designated *)

Lemma designated_scan ready c k :
  designated ready c = Some k →
  size (sentinels c) ≠ 0%nat
  ∧ scan_ready ready (mkState c [EvWait]) = (Ok (Some k), after_scan ready c).
Proof.
  unfold designated, after_scan. case_bool_decide; [done|].
  destruct (scan_ready ready (mkState c [EvWait])) as [[[k'|]|e|] s1]; try done.
  intros [= ->]. done.
Qed.

Lemma join_designated E ready c k :
  designated ready c = Some k →
  run (join E (Some ready)) c =
  bind (terminate_all (seq 0 (length (processes (ctx (after_scan ready c))))))
       (fun _ => raise_failure E k) (after_scan ready c).
Proof.
  intros Hd. apply designated_scan in Hd as [Hsize Hscan].
  unfold run, join, bind at 1, get_ctx. simpl.
  rewrite bool_decide_false by done.
  unfold bind at 1, emit. simpl.
  unfold bind at 1. rewrite Hscan.
  unfold bind at 1, get_ctx. done.
Qed.

(** Everything the later theorems need to know about a [join] call that
    designated worker [k] and did not block. *)
Lemma join_failure E ready c k r s' :
  designated ready c = Some k →
  run (join E (Some ready)) c = (r, s') →
  r ≠ Blocked →
  ∃ s2,
    terminate_all (seq 0 (length (processes (ctx (after_scan ready c)))))
                  (after_scan ready c) = (Ok tt, s2)
    ∧ raise_failure E k s2 = (r, s')
    ∧ error_queues (ctx s2) = error_queues c
    ∧ ∃ p c', processes (ctx s2) !! k = Some p
              ∧ exitcode p = Some c' ∧ c' ≠ 0
              ∧ ∀ p0, processes c !! k = Some p0 →
                      pid p = pid p0 ∧ fate p0 = Some c'.
Proof.
  intros Hd Hrun Hnb. rewrite (join_designated E _ _ _ Hd) in Hrun.
  apply designated_scan in Hd as [Hsize Hscan].
  set (s1 := after_scan ready c) in *.
  apply bind_inv in Hrun as [([] & s2 & Hcas & Hfail)|[(e & Hcas & _)|[_ ?]]];
    [| |done].
  2:{ exfalso. eapply terminate_all_no_raise; [|exact Hcas].
      intros i Hi. apply elem_of_seq in Hi. lia. }
  exists s2. split_and!; [done..| |].
  - rewrite (queues_kept_terminate_all _ _ _ _ Hcas).
    by rewrite (queues_kept_scan_ready _ _ _ _ Hscan).
  - destruct (scan_ready_designates _ _ _ _ Hscan) as (p1 & c1 & Hp1 & Hc1 & Hne).
    destruct (processes_evolve_terminate_all _ _ _ _ Hcas) as [_ Hev2].
    destruct (Hev2 _ _ Hp1) as (p2 & Hp2 & [Hpid2 _] & Hex2).
    exists p2, c1. split_and!; [done|by apply Hex2|done|].
    intros p0 Hp0.
    destruct (processes_evolve_scan_ready _ _ _ _ Hscan) as [_ Hev1].
    destruct (Hev1 _ _ Hp0) as (p1' & Hp1' & [Hpid1 _] & _).
    destruct (fates_kept_scan_ready _ _ _ _ Hscan _ _ Hp0) as (p1'' & Hp1'' & Hf).
    simpl in *. assert (p1' = p1) by congruence. assert (p1'' = p1) by congruence.
    subst. split; [congruence|].
    rewrite <- Hf. unfold fate. by rewrite Hc1.
Qed.

(** ** Strings *)

Lemma append_assoc (a b c : string) : (a +:+ b) +:+ c = a +:+ b +:+ c.
Proof.
  induction a as [|x a IH]; [done|].
  change (String x ((a +:+ b) +:+ c) = String x (a +:+ b +:+ c)).
  by rewrite IH.
Qed.

Lemma append_nil_r (a : string) : a +:+ "" = a.
Proof.
  induction a as [|x a IH]; [done|].
  change (String x (a +:+ "") = String x a). by rewrite IH.
Qed.

Lemma contains_refl M : contains M M.
Proof. exists "", "". by rewrite append_nil_r. Qed.

Lemma contains_append M pre s post :
  contains M s → contains M (pre +:+ s +:+ post).
Proof.
  intros (a & b & ->). exists (pre +:+ a), (b +:+ post).
  by rewrite !append_assoc.
Qed.

(** ** The cascade returns when every process can be stopped *)

Lemma stoppable_fate p :
  stoppable p →
  is_Some (fate (if is_alive p then with_term_sent p else p)).
Proof.
  unfold stoppable, fate, is_alive.
  destruct (exitcode p) as [c|] eqn:Hc; simpl.
  - rewrite Hc. eauto.
  - rewrite Hc. intros [[? [=]]|?]. done.
Qed.

Lemma terminate_all_returns indices s :
  (∀ i, i ∈ indices → ∃ p, processes (ctx s) !! i = Some p ∧ stoppable p) →
  NoDup indices →
  ∃ s', terminate_all indices s = (Ok tt, s').
Proof.
  revert s. induction indices as [|i indices IH]; intros s Hin Hnd; simpl.
  { by eexists. }
  apply NoDup_cons in Hnd as [Hnotin Hnd].
  destruct (Hin i ltac:(left)) as (p & Hp & Hstop).
  pose proof (stoppable_fate p Hstop) as [c Hc].
  assert (∃ sb,
    bind (if is_alive p then Process_terminate i else ret tt)
         (fun _ => Process_join i) s = (Ok tt, sb)
    ∧ ∀ j, j ≠ i → processes (ctx sb) !! j = processes (ctx s) !! j)
    as (sb & Hsb & Hother).
  { unfold Process_join, Process_terminate, update_process, process_at, emit,
      put_ctx, get_ctx, bind, ret. simpl.
    destruct (is_alive p); simpl; rewrite ?Hp; simpl.
    - rewrite list_lookup_insert_eq by (by eapply lookup_lt_Some).
      rewrite Hc. eexists. split; [done|]. simpl.
      intros j Hne. by rewrite !list_lookup_insert_ne.
    - rewrite Hc. eexists. split; [done|]. simpl.
      intros j Hne. by rewrite list_lookup_insert_ne. }
  destruct (IH sb) as [s' Hs']; [|done|].
  { intros j Hj. assert (j ≠ i) by (intros ->; done).
    rewrite Hother by done. apply Hin. by right. }
  exists s'. unfold process_at. unfold bind at 1. unfold bind at 1.
  unfold get_ctx. rewrite Hp. unfold ret at 1.
  unfold bind in Hsb. unfold bind at 1.
  destruct ((if is_alive p then Process_terminate i else ret ()) s)
    as [[[]|e|] sa]; [|done..].
  unfold bind at 1. rewrite Hsb. done.
Qed.

(** ** The outcome of a [join] that designated a worker *)

Lemma join_failure_outcome E ready c k p0 q r s' :
  designated ready c = Some k →
  processes c !! k = Some p0 →
  error_queues c !! k = Some q →
  run (join E (Some ready)) c = (r, s') →
  r ≠ Blocked →
  ∃ cd, fate p0 = Some cd ∧ cd ≠ 0
    ∧ r = match q with
          | [] =>
              if (cd <? 0)%Z then
                match Signals E (- cd) with
                | Some name =>
                    Raise (WorkerSignaledException k (pid p0) name
                                                   (get_error E (pid p0)))
                | None => Raise ValueError
                end
              else
                Raise (WorkerExitedException k (pid p0) cd (get_error E (pid p0)))
          | original_trace :: _ =>
              Raise (WorkerRaisedException k (pid p0)
                       (error_header k +:+ original_trace)
                       (get_error E (pid p0)))
          end
    ∧ EvGetError (pid p0) ∈ log s'.
Proof.
  intros Hd Hp0 Hq Hrun Hnb.
  destruct (join_failure _ _ _ _ _ _ Hd Hrun Hnb)
    as (s2 & _ & Hfail & Hqs & p & cd & Hp & Hcd & Hne & Hinit).
  destruct (Hinit _ Hp0) as [Hpid Hfate].
  exists cd. split_and!; [done..| |].
  - rewrite (raise_failure_run E k s2 p q) in Hfail by (by rewrite ?Hqs).
    rewrite Hcd, Hpid in Hfail. destruct q; by inversion Hfail.
  - rewrite (raise_failure_run E k s2 p q) in Hfail by (by rewrite ?Hqs).
    rewrite Hpid in Hfail.
    destruct q; inversion Hfail; subst; simpl;
      rewrite elem_of_app; right; by left.
Qed.

Lemma join_raises E ready c k :
  designated ready c = Some k →
  (∀ p, p ∈ processes c → stoppable p) →
  ∃ e s', run (join E (Some ready)) c = (Raise e, s').
Proof.
  intros Hd Hstop. rewrite (join_designated E _ _ _ Hd).
  pose proof (designated_scan _ _ _ Hd) as [_ Hscan].
  set (s1 := after_scan ready c) in *.
  destruct (processes_evolve_scan_ready _ _ _ _ Hscan) as [Hlen Hev].
  simpl in Hlen, Hev.
  destruct (scan_ready_designates _ _ _ _ Hscan) as (p1 & c1 & Hp1 & Hc1 & _).
  destruct (terminate_all_returns (seq 0 (length (processes (ctx s1)))) s1)
    as [s2 Hcas].
  { intros i Hi. apply elem_of_seq in Hi.
    assert (i < length (processes c))%nat as Hlt by (rewrite <- Hlen; lia).
    apply lookup_lt_is_Some in Hlt as [p Hp].
    destruct (Hev _ _ Hp) as (p' & Hp' & [_ Hte] & Hex).
    exists p'. split; [done|].
    destruct (Hstop p) as [[cp Hcp]|Hterm].
    - by eapply list_elem_of_lookup_2.
    - left. rewrite (Hex _ Hcp). eauto.
    - right. by rewrite Hte. }
  { apply NoDup_seq. }
  rewrite (bind_Ok _ _ _ _ _ Hcas).
  destruct (processes_evolve_terminate_all _ _ _ _ Hcas) as [_ Hev2].
  destruct (Hev2 _ _ Hp1) as (p2 & Hp2 & _ & Hex2).
  destruct (error_queues (ctx s2) !! k) as [q|] eqn:Hq.
  - rewrite (raise_failure_run E k s2 p2 q) by done.
    rewrite (Hex2 _ Hc1).
    destruct q; [|by eauto].
    destruct (c1 <? 0)%Z; [|by eauto]. destruct (Signals E (- c1)); by eauto.
  - rewrite (raise_failure_no_queue E k s2 p2) by done. by eauto.
Qed.

(** ** The concrete contexts are those that the launch builds *)

Example started_context3 :
  run (start_processes Demo.linux Demo.fn tt 3 false false "spawn" [])
      (mkProcessContext [] [] ∅)
  = (Ok (Some Demo.context3),
     mkState Demo.context3 [EvConfigure; EvStart 0; EvStart 1; EvStart 2]).
Proof. vm_compute. reflexivity. Qed.

Example started_context2 :
  (run (start_processes Demo.linux Demo.quiet tt 2 false false "fork" [])
       (mkProcessContext [] [] ∅)).1
  = Ok (Some Demo.context2).
Proof. vm_compute. reflexivity. Qed.

Example launch_three_fails :
  (run (start_processes Demo.linux Demo.fn tt 3 true false "spawn" [[12]; [11]])
       (mkProcessContext [] [] ∅)).1
  = Raise (WorkerRaisedException 1 101
             (error_header 1 +:+ Demo.boom_traceback) (Some "core dumped")).
Proof. vm_compute. reflexivity. Qed.

Example launch_two_succeeds :
  (run (start_processes Demo.linux Demo.quiet tt 2 true false "spawn" [[11]; [10]])
       (mkProcessContext [] [] ∅)).1
  = Ok None.
Proof. vm_compute. reflexivity. Qed.

(** A worker killed by a signal without a member in the enumeration:
    [signal.Signals(35)] raises and no record is built. *)
Example join_unnamed_signal :
  (run (join Demo.linux (Some [10])) Demo.context_rt).1 = Raise ValueError.
Proof. vm_compute. reflexivity. Qed.

(** * The claims *)




Lemma join_shrinks E w : preserves (shrinks (default [] w)) (join E w).
Proof.
  destruct w as [ready|]; [apply shrinks_join|].
  intros s r s' H. unfold join, bind, get_ctx, emit, block, ret in H.
  case_bool_decide; inversion H; by apply shrinks_same.
Qed.

Lemma join_joined_state E w s :
  sentinels (ctx s) = ∅ → join E w s = (Ok true, s).
Proof.
  intros Hempty. unfold join, bind, get_ctx, ret. simpl.
  rewrite bool_decide_true; [done|]. by rewrite Hempty, map_size_empty.
Qed.

Lemma join_joined E w c :
  sentinels c = ∅ → run (join E w) c = (Ok true, mkState c []).
Proof. intros Hempty. by apply join_joined_state. Qed.

Lemma join_calls_joined E waits c :
  sentinels c = ∅ → join_calls E waits c = c.
Proof.
  intros Hempty. induction waits as [|w waits IH]; simpl; [done|].
  by rewrite join_joined.
Qed.

Lemma join_calls_shrink E waits c :
  sentinels (join_calls E waits c) ⊆ sentinels c.
Proof.
  revert c. induction waits as [|w waits IH]; intros c; simpl; [done|].
  etrans; [apply IH|].
  destruct (run (join E w) c) as [r s'] eqn:Hrun.
  by destruct (join_shrinks E w _ _ _ Hrun).
Qed.

(** C4.  The sentinel mapping only shrinks across [join] calls: after
    any series of calls it is included in the mapping the context was
    built with, a single call removes only keys that [wait] reported
    ready, and once the mapping is empty every later call returns true
    at once, with no event logged and the context unchanged. *)
Theorem sentinels_only_shrink E waits w c :
  sentinels (join_calls E waits c) ⊆ sentinels c
  ∧ sentinels (ctx (run (join E w) c).2) ⊆ sentinels c
  ∧ (∀ k, is_Some (sentinels c !! k) →
          sentinels (ctx (run (join E w) c).2) !! k = None →
          ∃ ready, w = Some ready ∧ k ∈ ready)
  ∧ (sentinels c = ∅ →
       join_calls E waits c = c
       ∧ run (join E w) (join_calls E waits c) = (Ok true, mkState c [])).
Proof.
  split_and!.
  - apply join_calls_shrink.
  - destruct (run (join E w) c) as [r s'] eqn:Hrun.
    by destruct (join_shrinks E w _ _ _ Hrun).
  - destruct (run (join E w) c) as [r s'] eqn:Hrun.
    destruct (join_shrinks E w _ _ _ Hrun) as [_ Hrem].
    intros k Hk Hgone. specialize (Hrem k Hk Hgone).
    destruct w as [ready|]; [by eauto|]. by apply elem_of_nil in Hrem.
  - intros Hempty. rewrite join_calls_joined by done.
    split; [done|by apply join_joined].
Qed.

Lemma sentinels_only_shrink_witness :
  join_calls Demo.linux [Some [10]; None] Demo.joined2 = Demo.joined2
  ∧ run (join Demo.linux (Some [11]))
        (join_calls Demo.linux [Some [10]; None] Demo.joined2)
    = (Ok true, mkState Demo.joined2 []).
Proof.
  apply (sentinels_only_shrink Demo.linux [Some [10]; None] (Some [11])
           Demo.joined2).
  vm_compute. reflexivity.
Defined.

Lemma raise_failure_effect E k s p r s' :
  processes (ctx s) !! k = Some p →
  raise_failure E k s = (r, s') →
  processes (ctx s') = processes (ctx s)
  ∧ ∃ tail, log s' = (log s ++ EvGetError (pid p) :: tail)%list.
Proof.
  intros Hp Hfail. destruct (error_queues (ctx s) !! k) as [q|] eqn:Hq.
  - rewrite (raise_failure_run E k s p q) in Hfail by done.
    destruct q; inversion Hfail; subst; simpl; eauto.
  - rewrite (raise_failure_no_queue E k s p) in Hfail by done.
    inversion Hfail; subst; simpl; eauto.
Qed.

(** C3.  Whenever [join] designates a failing worker and raises, its
    log shows, for every worker still alive when the failure was
    designated, a termination request followed at once by a wait for
    that worker, both before the error report is fetched and the error
    raised; and when the error is raised no worker of the group is
    alive. *)
Theorem failure_cascade E ready c k e s' :
  designated ready c = Some k →
  run (join E (Some ready)) c = (Raise e, s') →
  (∀ i p, processes (ctx (after_scan ready c)) !! i = Some p →
          is_alive p = true →
          ∃ l1 l2 error_pid l3,
            log s' = (l1 ++ [EvTerminate i; EvJoin i] ++ l2
                         ++ EvGetError error_pid :: l3)%list)
  ∧ (∀ p, p ∈ processes (ctx s') → is_alive p = false).
Proof.
  intros Hd Hrun.
  destruct (join_failure _ _ _ _ _ _ Hd Hrun ltac:(done))
    as (s2 & Hcas & Hfail & _ & pk & ck & Hpk & _).
  destruct (raise_failure_effect _ _ _ _ _ _ Hpk Hfail) as [Hprocs [tail Hlog]].
  pose proof (terminate_all_cascade _ _ _ (NoDup_seq _ _) Hcas) as Hcascade.
  destruct (processes_evolve_terminate_all _ _ _ _ Hcas) as [Hlen _].
  split.
  - intros i p Hp Halive.
    destruct (Hcascade i) as [_ Htr].
    { apply elem_of_seq. apply lookup_lt_Some in Hp. lia. }
    destruct (Htr p Hp Halive) as (l1 & l2 & Hl).
    exists (log (after_scan ready c) ++ l1)%list, l2, (pid pk), tail.
    rewrite Hlog, Hl. by rewrite <- !app_assoc.
  - intros p Hin. rewrite Hprocs in Hin.
    apply list_elem_of_lookup in Hin as [i Hi].
    destruct (Hcascade i) as [(p' & Hp' & Hdead) _].
    { apply elem_of_seq. apply lookup_lt_Some in Hi. lia. }
    congruence.
Qed.

Lemma failure_cascade_witness :
  (∀ i p, processes (ctx (after_scan [11] Demo.context3)) !! i = Some p →
          is_alive p = true →
          ∃ l1 l2 error_pid l3,
            log (run (join Demo.linux (Some [11])) Demo.context3).2
            = (l1 ++ [EvTerminate i; EvJoin i] ++ l2
                  ++ EvGetError error_pid :: l3)%list)
  ∧ (∀ p, p ∈ processes (ctx (run (join Demo.linux (Some [11])) Demo.context3).2) →
          is_alive p = false).
Proof.
  apply (failure_cascade Demo.linux [11] Demo.context3 1%nat
           (WorkerRaisedException 1 101
              (error_header 1 +:+ Demo.boom_traceback) (Some "core dumped"))).
  - vm_compute. reflexivity.
  - vm_compute. reflexivity.
Defined.

(** C6.  Whatever the classification of the failure, [join] asks the
    error-report collaborator for the text recorded under the failing
    worker's pid; when that text is present (not [None], not empty) the
    record's message is its original content followed by the text
    (after the banner, for a raised-exception record), and otherwise the
    message is the original content alone.  The original content is the
    header and the traceback for a raised-exception record and is empty
    for the other two. *)
Theorem join_appends_error_report E ready c k p0 q e b s' :
  designated ready c = Some k →
  processes c !! k = Some p0 →
  error_queues c !! k = Some q →
  run (join E (Some ready)) c = (Raise e, s') →
  failure_record e = Some b →
  EvGetError (pid p0) ∈ log s'
  ∧ let original :=
      match q with
      | original_trace :: _ => error_header k +:+ original_trace
      | [] => ""
      end in
    let separator :=
      match q with
      | _ :: _ => captured_errors_banner
      | [] => ""
      end in
    match get_error E (pid p0) with
    | Some (String a t) =>
        msg_text (msg b) = original +:+ separator +:+ String a t
    | _ => msg_text (msg b) = original
    end.
Proof.
  intros Hd Hp0 Hq Hrun Hrec.
  destruct (join_failure_outcome _ _ _ _ _ _ _ _ Hd Hp0 Hq Hrun ltac:(done))
    as (cd & _ & _ & Hr & Hlog).
  split; [done|].
  destruct q as [|tb rest].
  - destruct (cd <? 0)%Z.
    + destruct (Signals E (- cd)); inversion Hr; subst; [|done].
      inversion Hrec; subst. simpl.
      by destruct (get_error E (pid p0)) as [[|a t]|].
    + inversion Hr; subst. inversion Hrec; subst. simpl.
      by destruct (get_error E (pid p0)) as [[|a t]|].
  - inversion Hr; subst. inversion Hrec; subst. simpl.
    by destruct (get_error E (pid p0)) as [[|a t]|].
Qed.

Lemma join_appends_error_report_witness :
  EvGetError 101 ∈ log (run (join Demo.linux (Some [11])) Demo.context3).2
  ∧ msg_text (Some (error_header 1 +:+ Demo.boom_traceback
                      +:+ captured_errors_banner +:+ "core dumped"))
    = (error_header 1 +:+ Demo.boom_traceback)
        +:+ captured_errors_banner +:+ "core dumped".
Proof.
  apply (join_appends_error_report Demo.linux [11] Demo.context3 1%nat
           (mkProcess 101 11 None false (Some 1) (Some (-15)))
           [Demo.boom_traceback]
           (WorkerRaised
              (mkSubprocessException 1 101
                 (Some (error_header 1 +:+ Demo.boom_traceback
                          +:+ captured_errors_banner +:+ "core dumped"))))
           (mkSubprocessException 1 101
              (Some (error_header 1 +:+ Demo.boom_traceback
                       +:+ captured_errors_banner +:+ "core dumped")))).
  - vm_compute. reflexivity.
  - vm_compute. reflexivity.
  - vm_compute. reflexivity.
  - vm_compute. reflexivity.
  - reflexivity.
Defined.

(** ** The wrapper *)

Lemma _wrap_invoked {Args} E (fn : nat -> Args -> fn_outcome) i args q :
  fn_invoked (_wrap E fn i args q) = true → _pr_set_pdeathsig E SIGINT = Ok tt.
Proof.
  unfold _wrap. destruct (_pr_set_pdeathsig E SIGINT) as [[]|e|]; done.
Qed.

Lemma _wrap_raises {Args} E (fn : nat -> Args -> fn_outcome) i args q ex tb :
  _pr_set_pdeathsig E SIGINT = Ok tt →
  fn i args = fn_raises ex tb →
  _wrap E fn i args q =
  match ex with
  | KeyboardInterrupt => mkWrapped (Ok tt) q true
  | _ =>
      if is_Exception ex
      then mkWrapped (Raise (SystemExit 1)) (q ++ [tb]) true
      else mkWrapped (Raise ex) q true
  end.
Proof. intros Hsig Hfn. unfold _wrap. rewrite Hsig, Hfn. by destruct ex. Qed.

Lemma designated_process ready c k :
  designated ready c = Some k → is_Some (processes c !! k).
Proof.
  intros Hd. apply designated_scan in Hd as [_ Hscan].
  destruct (scan_ready_designates _ _ _ _ Hscan) as (p & cd & Hp & _).
  destruct (processes_evolve_scan_ready _ _ _ _ Hscan) as [Hlen _].
  apply lookup_lt_is_Some. apply lookup_lt_Some in Hp. simpl in Hlen. lia.
Qed.

Lemma contains_boom : contains "boom" Demo.boom_traceback.
Proof.
  exists ("Traceback (most recent call last):" +:+ nl +:+ "ValueError: "), nl.
  vm_compute. reflexivity.
Qed.

(** C2 as stated fails: worker 1 raises an exception whose text contains
    "boom", yet when worker 0, which exited with status 7, is met first
    in the ready list, the record that [join] raises has index 0. *)
Lemma raised_worker_not_designated :
  ¬ (∀ (E : Env) (fn : nat -> unit -> fn_outcome) (c : ProcessContext)
       (ready : list Z) (k : nat) (ex : exn) (tb M : string)
       (e : exn) (s' : state),
       fn k tt = fn_raises ex tb →
       is_Exception ex = true →
       contains M tb →
       fn_invoked (_wrap E fn k tt []) = true →
       error_queues c !! k = Some (queue_after (_wrap E fn k tt [])) →
       (∃ p, processes c !! k = Some p
             ∧ fate p = exit_status (outcome (_wrap E fn k tt []))) →
       run (join E (Some ready)) c = (Raise e, s') →
       ∃ b, failure_record e = Some b ∧ error_index b = k
            ∧ contains M (msg_text (msg b))).
Proof.
  intros H.
  destruct (H Demo.linux Demo.fn Demo.context3 [10; 11] 1%nat
              (OtherException "ValueError") Demo.boom_traceback "boom"
              (WorkerExitedException 0 100 7 None)
              (run (join Demo.linux (Some [10; 11])) Demo.context3).2)
    as (b & Hb & Hidx & _).
  - reflexivity.
  - reflexivity.
  - apply contains_boom.
  - reflexivity.
  - vm_compute. reflexivity.
  - eexists. split; vm_compute; reflexivity.
  - vm_compute. reflexivity.
  - inversion Hb; subst. discriminate Hidx.
Qed.

(** C2, amended.  If worker [k]'s user function raises an ordinary
    exception whose diagnostic text contains [M], the wrapper writes that
    text to its channel and exits with status 1; and if [k] is the worker
    that [join] designates as failing, the record that [join] raises is a
    raised-exception record with failing index [k] and a message that
    contains [M]. *)
Theorem raised_exception_reaches_parent {Args} E
    (fn : nat -> Args -> fn_outcome) args c ready k ex tb M r s' :
  fn k args = fn_raises ex tb →
  is_Exception ex = true →
  contains M tb →
  fn_invoked (_wrap E fn k args []) = true →
  error_queues c !! k = Some (queue_after (_wrap E fn k args [])) →
  designated ready c = Some k →
  run (join E (Some ready)) c = (r, s') →
  r ≠ Blocked →
  _wrap E fn k args [] = mkWrapped (Raise (SystemExit 1)) [tb] true
  ∧ exit_status (outcome (_wrap E fn k args [])) = Some 1
  ∧ ∃ b, r = Raise (WorkerRaised b) ∧ error_index b = k
         ∧ contains M (msg_text (msg b)).
Proof.
  intros Hfn Hex HM Hinv Hq Hd Hrun Hnb.
  assert (_wrap E fn k args [] = mkWrapped (Raise (SystemExit 1)) [tb] true)
    as Hwrap.
  { rewrite (_wrap_raises E fn k args [] ex tb (_wrap_invoked _ _ _ _ _ Hinv) Hfn).
    rewrite Hex. by destruct ex. }
  rewrite Hwrap in Hq |- *. simpl in Hq. split_and!; [done..|].
  destruct (designated_process _ _ _ Hd) as [p0 Hp0].
  destruct (join_failure_outcome _ _ _ _ _ _ _ _ Hd Hp0 Hq Hrun Hnb)
    as (cd & _ & _ & -> & _).
  eexists. split; [reflexivity|]. split; [done|]. simpl.
  destruct (truthy (get_error E (pid p0))); simpl.
  - rewrite append_assoc. by apply contains_append.
  - rewrite <- (append_nil_r tb). by apply contains_append.
Qed.

Lemma raised_exception_reaches_parent_witness :
  _wrap Demo.linux Demo.fn 1 tt []
  = mkWrapped (Raise (SystemExit 1)) [Demo.boom_traceback] true
  ∧ exit_status (outcome (_wrap Demo.linux Demo.fn 1 tt [])) = Some 1
  ∧ ∃ b, (run (join Demo.linux (Some [11])) Demo.context3).1
         = Raise (WorkerRaised b)
         ∧ error_index b = 1%nat
         ∧ contains "boom" (msg_text (msg b)).
Proof.
  apply (raised_exception_reaches_parent Demo.linux Demo.fn tt Demo.context3
           [11] 1%nat (OtherException "ValueError") Demo.boom_traceback "boom"
           _ (run (join Demo.linux (Some [11])) Demo.context3).2).
  - reflexivity.
  - reflexivity.
  - exists ("Traceback (most recent call last):" +:+ nl +:+ "ValueError: "), nl.
    vm_compute. reflexivity.
  - reflexivity.
  - vm_compute. reflexivity.
  - vm_compute. reflexivity.
  - apply surjective_pairing.
  - vm_compute. discriminate.
Defined.

(** C9.  The wrapper catches ordinary exceptions only.  When the user
    function raises an exception that is neither an [Exception] nor
    [KeyboardInterrupt], the wrapper leaves the failure channel as it
    was and lets the exception through instead of exiting with status 1;
    [KeyboardInterrupt] is the one exception after which the wrapper
    returns normally; and a worker whose channel was left empty in this
    way is classified by [join] from its exit status alone. *)
Theorem wrap_catches_only_Exception {Args} E
    (fn : nat -> Args -> fn_outcome) args i q ex tb :
  fn_invoked (_wrap E fn i args q) = true →
  fn i args = fn_raises ex tb →
  (is_Exception ex = false → ex ≠ KeyboardInterrupt →
     _wrap E fn i args q = mkWrapped (Raise ex) q true)
  ∧ (outcome (_wrap E fn i args q) = Ok tt ↔ ex = KeyboardInterrupt)
  ∧ (ex = KeyboardInterrupt → queue_after (_wrap E fn i args q) = q)
  ∧ (is_Exception ex = false →
     ∀ c ready p0 r s',
       error_queues c !! i = Some (queue_after (_wrap E fn i args [])) →
       processes c !! i = Some p0 →
       designated ready c = Some i →
       run (join E (Some ready)) c = (r, s') →
       r ≠ Blocked →
       ∃ cd, fate p0 = Some cd
         ∧ r = if (cd <? 0)%Z then
                 match Signals E (- cd) with
                 | Some name =>
                     Raise (WorkerSignaledException i (pid p0) name
                                                    (get_error E (pid p0)))
                 | None => Raise ValueError
                 end
               else
                 Raise (WorkerExitedException i (pid p0) cd
                                              (get_error E (pid p0)))).
Proof.
  intros Hinv Hfn.
  pose proof (_wrap_invoked _ _ _ _ _ Hinv) as Hsig.
  pose proof (fun q => _wrap_raises E fn i args q ex tb Hsig Hfn) as Hwrap.
  split_and!.
  - intros Hnot Hne. rewrite Hwrap, Hnot. by destruct ex.
  - rewrite Hwrap. destruct ex; simpl; split; done.
  - intros ->. by rewrite Hwrap.
  - intros Hnot c ready p0 r s' Hq Hp0 Hd Hrun Hnb.
    assert (queue_after (_wrap E fn i args []) = []) as Hempty.
    { rewrite Hwrap, Hnot. by destruct ex. }
    rewrite Hempty in Hq.
    destruct (join_failure_outcome _ _ _ _ _ _ _ _ Hd Hp0 Hq Hrun Hnb)
      as (cd & Hfate & _ & Hr & _).
    by exists cd.
Qed.

Lemma wrap_catches_only_Exception_witness :
  _wrap Demo.linux Demo.fn 0 tt [] = mkWrapped (Raise (SystemExit 7)) [] true
  ∧ (run (join Demo.linux (Some [10])) Demo.context3).1
    = Raise (WorkerExitedException 0 100 7 None).
Proof.
  destruct (wrap_catches_only_Exception Demo.linux Demo.fn tt 0%nat []
              (SystemExit 7) "" eq_refl eq_refl) as (H1 & _ & _ & H4).
  split.
  - apply H1; [reflexivity|discriminate].
  - destruct (H4 eq_refl Demo.context3 [10]
                (mkProcess 100 10 None false (Some 7) (Some (-15)))
                (run (join Demo.linux (Some [10])) Demo.context3).1
                (run (join Demo.linux (Some [10])) Demo.context3).2)
      as (cd & Hcd & Hr).
    + vm_compute. reflexivity.
    + vm_compute. reflexivity.
    + vm_compute. reflexivity.
    + apply surjective_pairing.
    + vm_compute. discriminate.
    + injection Hcd as <-. exact Hr.
Defined.

(** ** The parent-death signal *)

Example _wrap_without_libc :
  _wrap Demo.no_libc Demo.fn 2 tt [] = mkWrapped (Raise OSError) [] false.
Proof. reflexivity. Qed.

(** C7 as stated fails: on a host whose [prctl] returns a value other
    than zero the wrapper ends with an assertion error and the user
    function is not invoked. *)
Lemma pdeathsig_failure_is_fatal :
  ¬ (∀ (E : Env) (fn : nat -> unit -> fn_outcome) (i : nat)
       (error_queue : list string),
       fn_invoked (_wrap E fn i tt error_queue) = true).
Proof. intros H. specialize (H Demo.prctl_fails Demo.fn 2%nat []). done. Qed.

(** C7, amended.  The wrapper sets the parent-death signal before it
    invokes the user function.  Where [libc.so.6] loads and [prctl]
    returns zero this has no further effect and the user function is
    invoked; where [prctl] returns another value the wrapper ends with
    an assertion error, the user function is not invoked and nothing is
    written to the failure channel. *)
Theorem pdeathsig_before_fn {Args} E (fn : nat -> Args -> fn_outcome)
    i args error_queue prctl :
  libc E = Some prctl →
  (prctl PR_SET_PDEATHSIG SIGINT = 0 →
     _pr_set_pdeathsig E SIGINT = Ok tt
     ∧ fn_invoked (_wrap E fn i args error_queue) = true)
  ∧ (prctl PR_SET_PDEATHSIG SIGINT ≠ 0 →
     _wrap E fn i args error_queue
     = mkWrapped (Raise AssertionError) error_queue false).
Proof.
  intros Hlibc. unfold _wrap, _pr_set_pdeathsig. rewrite Hlibc. split.
  - intros ->. simpl. split; [done|].
    destruct (fn i args) as [|ex tb|]; [done| |done].
    destruct ex; simpl; done.
  - intros Hrv. by rewrite (proj2 (Z.eqb_neq _ _) Hrv).
Qed.

Lemma pdeathsig_before_fn_witness :
  (0 = 0 →
     _pr_set_pdeathsig Demo.linux SIGINT = Ok tt
     ∧ fn_invoked (_wrap Demo.linux Demo.fn 1 tt []) = true)
  ∧ (0 ≠ 0 →
     _wrap Demo.linux Demo.fn 1 tt [] = mkWrapped (Raise AssertionError) [] false).
Proof.
  apply (pdeathsig_before_fn Demo.linux Demo.fn 1%nat tt [] (fun _ _ => 0)).
  reflexivity.
Defined.

(** ** The deprecated alias *)

(** C8 as stated fails: constructing a [SpawnContext] yields no object
    whose fields could be bound to anything. *)
Lemma SpawnContext_yields_no_object :
  ¬ ∃ obj,
      (SpawnContext__init__ Demo.linux (processes Demo.context3)
                        (error_queues Demo.context3)).1 = Ok obj.
Proof. intros [obj H]. discriminate H. Qed.

(** C8, amended.  The alias constructor warns and then hands the base
    initializer one positional argument too many, so for all [processes]
    and [error_queues] the construction ends with a [TypeError] and no
    object; it is not equivalent to [ProcessContext(processes,
    error_queues)], which never ends with a [TypeError] and on a
    supported Python version yields the context. *)
Theorem SpawnContext_always_fails E processes error_queues :
  length (SpawnContext_super_args processes error_queues) = 4%nat
  ∧ SpawnContext__init__ E processes error_queues = (Raise TypeError, [EvWarn])
  ∧ (new_ProcessContext E processes error_queues).1 ≠ Raise TypeError
  ∧ (_supports_context E = true →
     new_ProcessContext E processes error_queues
     = (Ok (mkProcessContext error_queues processes (sentinel_dict processes)),
        [])).
Proof.
  unfold SpawnContext__init__, new_ProcessContext, call_ProcessContext__init__,
    ProcessContext__init__, _python_version_check.
  split_and!; [done..| |].
  - simpl. by destruct (_supports_context E).
  - by intros ->.
Qed.

Lemma SpawnContext_always_fails_witness :
  new_ProcessContext Demo.linux (processes Demo.context3)
                     (error_queues Demo.context3)
  = (Ok (mkProcessContext (error_queues Demo.context3)
                          (processes Demo.context3)
                          (sentinel_dict (processes Demo.context3))), []).
Proof.
  apply (SpawnContext_always_fails Demo.linux (processes Demo.context3)
           (error_queues Demo.context3)).
  reflexivity.
Defined.

(** ** Launching no worker *)

(** C5 as stated fails: with [nprocs = 0] the launch is not rejected. *)
Lemma launch_of_no_worker_not_rejected :
  ¬ ∃ e,
      (run (start_processes Demo.linux Demo.fn tt 0 true false "spawn" [])
           (mkProcessContext [] [] ∅)).1 = Raise e.
Proof. intros [e H]. vm_compute in H. discriminate H. Qed.

Lemma join_loop_joined E waits s :
  sentinels (ctx s) = ∅ → join_loop E waits s = (Ok tt, s).
Proof.
  intros Hempty. destruct waits as [|ready waits]; simpl;
    unfold bind; by rewrite join_joined_state.
Qed.

(** C5, amended.  On a supported Python version and with an accepted
    start method, [start_processes] with [nprocs = 0] raises no error
    and starts no process: after configuring the error reporter it
    builds a context without workers and returns it when [join] is
    false, or returns nothing when [join] is true, the first [join] call
    returning true at once.  [spawn] does the same whenever
    [start_processes] accepts the start method "spawn". *)
Theorem launch_of_no_worker {Args} E (fn : nat -> Args -> fn_outcome) args
    join daemon start_method waits s :
  _supports_context E = true →
  start_method ∈ start_methods E →
  start_processes E fn args 0 join daemon start_method waits s
  = (Ok (if join then None else Some (mkProcessContext [] [] ∅)),
     mkState (mkProcessContext [] [] ∅) (log s ++ [EvConfigure])%list)
  ∧ ("spawn" ∈ start_methods E →
     ∃ s', spawn E fn args 0 join daemon start_method waits s
           = (Ok (if join then None else Some (mkProcessContext [] [] ∅)), s')
           ∧ ctx s' = mkProcessContext [] [] ∅
           ∧ ∀ i, EvStart i ∈ log s' → EvStart i ∈ log s).
Proof.
  intros Hver Hmeth.
  assert (∀ m s0, m ∈ start_methods E →
    start_processes E fn args 0 join daemon m waits s0
    = (Ok (if join then None else Some (mkProcessContext [] [] ∅)),
       mkState (mkProcessContext [] [] ∅) (log s0 ++ [EvConfigure])%list))
    as Hstart.
  { intros m s0 Hm.
    unfold start_processes, ProcessContext__init__, _python_version_check,
      lift, emit, put_ctx, get_ctx, bind, ret. simpl.
    rewrite Hver, bool_decide_true by done. simpl.
    destruct join; simpl; [|done].
    by rewrite join_loop_joined. }
  split; [by apply Hstart|].
  intros Hspawn. unfold spawn, bind.
  destruct (bool_decide (start_method = "spawn")); simpl.
  - rewrite Hstart by done. eexists. split_and!; [done..|].
    intros i. simpl. rewrite elem_of_app, list_elem_of_singleton.
    intros [?|?]; done.
  - rewrite Hstart by done. eexists. split_and!; [done..|].
    intros i. simpl. rewrite !elem_of_app, !list_elem_of_singleton.
    intros [[?|?]|?]; done.
Qed.

Lemma launch_of_no_worker_witness :
  start_processes Demo.linux Demo.fn tt 0 true false "fork" [] 
    (mkState (mkProcessContext [] [] ∅) [])
  = (Ok None, mkState (mkProcessContext [] [] ∅) [EvConfigure])
  ∧ ("spawn" ∈ start_methods Demo.linux →
     ∃ s', spawn Demo.linux Demo.fn tt 0 true false "fork" []
                 (mkState (mkProcessContext [] [] ∅) [])
           = (Ok None, s')
           ∧ ctx s' = mkProcessContext [] [] ∅
           ∧ ∀ i, EvStart i ∈ log s' → EvStart i ∈ []).
Proof.
  apply (launch_of_no_worker Demo.linux Demo.fn tt true false "fork" []
           (mkState (mkProcessContext [] [] ∅) [])).
  - reflexivity.
  - left.
Defined.

(** ** Which failure channel a [join] call touches *)

Lemma no_queue_event_no_get l :
  Forall (fun ev => ¬ is_queue_event ev) l → List.filter is_queue_get l = [].
Proof.
  induction 1 as [|ev l Hev _ IH]; simpl; [done|].
  rewrite IH. by destruct ev; simpl in *.
Qed.

Lemma no_queue_event_elem l ev :
  Forall (fun ev => ¬ is_queue_event ev) l → ev ∈ l → ¬ is_queue_event ev.
Proof. intros Hall Hin. by eapply Forall_forall in Hall. Qed.

Lemma join_queue_cases E w c r s' :
  run (join E w) c = (r, s') →
  (error_queues (ctx s') = error_queues c
   ∧ Forall (fun ev => ¬ is_queue_event ev) (log s'))
  ∨ (∃ ready k s2 p,
       w = Some ready ∧ designated ready c = Some k
       ∧ error_queues (ctx s2) = error_queues c
       ∧ Forall (fun ev => ¬ is_queue_event ev) (log s2)
       ∧ processes (ctx s2) !! k = Some p
       ∧ raise_failure E k s2 = (r, s')).
Proof.
  intros Hrun.
  destruct (decide (size (sentinels c) = 0%nat)) as [Hsize|Hsize].
  { left. unfold run, join, bind, get_ctx, ret in Hrun. simpl in Hrun.
    rewrite bool_decide_true in Hrun by done. by inversion Hrun. }
  destruct w as [ready|].
  2:{ left. unfold run, join, bind, get_ctx, emit, block in Hrun.
      simpl in Hrun. rewrite bool_decide_false in Hrun by done.
      inversion Hrun; subst; simpl. split; [done|].
      repeat constructor. by intros []. }
  assert (∀ P : event -> Prop, P EvWait → ∀ (s0 s1 : state),
    log_adds P (mkState c [EvWait]) s0 → log_adds P s0 s1 → Forall P (log s1))
    as Hforall.
  { intros P HW s0 s1 (l0 & H0 & HP0) (l1 & H1 & HP1). rewrite H1, H0. simpl.
    constructor; [done|]. by apply Forall_app. }
  destruct (scan_ready ready (mkState c [EvWait])) as [rs s1] eqn:Hscan.
  pose proof (queues_kept_scan_ready _ _ _ _ Hscan) as Hq1.
  pose proof (log_adds_scan_ready (fun ev => ¬ is_queue_event ev) ready
                ltac:(by intros i []) _ _ _ Hscan) as Hl1.
  unfold queues_kept in Hq1. simpl in Hq1.
  assert (run (join E (Some ready)) c =
          bind (fun _ => (rs, s1))
            (fun error_index =>
               match error_index with
               | None =>
                   c0 <- get_ctx ;;
                   ret (bool_decide (size (sentinels c0) = 0%nat))
               | Some error_index =>
                   c0 <- get_ctx ;;
                   terminate_all (seq 0 (length (processes c0))) ;;;
                   raise_failure E error_index
               end) (mkState c [EvWait])) as Hjoin.
  { unfold run, join. unfold bind at 1, get_ctx. simpl.
    rewrite bool_decide_false by done.
    unfold bind at 1, emit. simpl. unfold bind at 1. rewrite Hscan. done. }
  rewrite Hjoin in Hrun. unfold bind at 1 in Hrun.
  destruct rs as [[k|]|e|].
  - assert (designated ready c = Some k) as Hd.
    { unfold designated. rewrite bool_decide_false by done. by rewrite Hscan. }
    unfold bind at 1, get_ctx in Hrun.
    destruct (terminate_all (seq 0 (length (processes (ctx s1)))) s1)
      as [rc s2] eqn:Hcas.
    pose proof (queues_kept_terminate_all _ _ _ _ Hcas) as Hq2.
    pose proof (log_adds_terminate_all (fun ev => ¬ is_queue_event ev) _
                  ltac:(by intros i []) ltac:(by intros i []) _ _ _ Hcas) as Hl2.
    unfold queues_kept in Hq2.
    unfold bind in Hrun. rewrite Hcas in Hrun.
    assert (Forall (fun ev => ¬ is_queue_event ev) (log s2)) as Hlog2.
    { eapply Hforall; [by intros []|exact Hl1|exact Hl2]. }
    destruct rc as [[]|e|].
    + right.
      destruct (scan_ready_designates _ _ _ _ Hscan) as (p1 & c1 & Hp1 & _).
      destruct (processes_evolve_terminate_all _ _ _ _ Hcas) as [_ Hev].
      destruct (Hev _ _ Hp1) as (p2 & Hp2 & _).
      exists ready, k, s2, p2. split_and!; try done. congruence.
    + left. inversion Hrun; subst. split; [congruence|done].
    + left. inversion Hrun; subst. split; [congruence|done].
  - left. unfold bind, get_ctx, ret in Hrun. inversion Hrun; subst.
    split; [done|].
    eapply Hforall; [by intros []|exact Hl1|apply log_adds_refl].
  - left. inversion Hrun; subst. split; [done|].
    eapply Hforall; [by intros []|exact Hl1|apply log_adds_refl].
  - left. inversion Hrun; subst. split; [done|].
    eapply Hforall; [by intros []|exact Hl1|apply log_adds_refl].
Qed.

(** C10.  A [join] call looks at no failure channel other than the one
    of the worker it designates as failing: every probe and every read
    in its log is for that worker, at most one message is taken, it is
    taken only from a channel that held one, and every channel from
    which nothing was taken, such as those of workers that exited with
    status zero or were stopped by the cascade, holds after the call what
    it held before. *)
Theorem join_reads_one_channel E w c r s' :
  run (join E w) c = (r, s') →
  (∀ j, EvQueueEmpty j ∈ log s' ∨ EvQueueGet j ∈ log s' →
        ∃ ready, w = Some ready ∧ designated ready c = Some j)
  ∧ (length (List.filter is_queue_get (log s')) ≤ 1)%nat
  ∧ (∀ j, EvQueueGet j ∈ log s' →
        ∃ m rest, error_queues c !! j = Some (m :: rest)
                  ∧ error_queues (ctx s') = <[j := rest]> (error_queues c))
  ∧ (∀ j, EvQueueGet j ∉ log s' →
        error_queues (ctx s') !! j = error_queues c !! j).
Proof.
  intros Hrun.
  destruct (join_queue_cases _ _ _ _ _ Hrun)
    as [[Hq Hall]|(ready & k & s2 & p & -> & Hd & Hq & Hall & Hp & Hfail)].
  { split_and!.
    - intros j [Hj|Hj]; by apply (no_queue_event_elem _ _ Hall) in Hj.
    - rewrite no_queue_event_no_get by done. simpl. lia.
    - intros j Hj. by apply (no_queue_event_elem _ _ Hall) in Hj.
    - intros j _. by rewrite Hq. }
  pose proof (no_queue_event_no_get _ Hall) as Hget.
  assert (∀ ev, ev ∈ log s2 → ¬ is_queue_event ev) as Hno
    by (intros ev; apply no_queue_event_elem; done).
  destruct (error_queues (ctx s2) !! k) as [[|m rest]|] eqn:Hqk.
  - rewrite (raise_failure_run E k s2 p []) in Hfail by done.
    inversion Hfail; subst; simpl. split_and!.
    + intros j. rewrite !elem_of_app, !elem_of_cons, !elem_of_nil.
      intros [[Hj|[?|[[= ->]|[]]]]|[Hj|[?|[?|[]]]]];
        try done; try (by apply Hno in Hj); eauto.
    + rewrite List.filter_app, Hget. simpl. lia.
    + intros j. rewrite !elem_of_app, !elem_of_cons, !elem_of_nil.
      intros [Hj|[?|[?|[]]]]; try done. by apply Hno in Hj.
    + intros j _. by rewrite Hq.
  - rewrite (raise_failure_run E k s2 p (m :: rest)) in Hfail by done.
    inversion Hfail; subst; simpl. rewrite Hq in *. split_and!.
    + intros j. rewrite !elem_of_app, !elem_of_cons, !elem_of_nil.
      intros [[Hj|[?|[[= ->]|[?|[]]]]]|[Hj|[?|[?|[[= ->]|[]]]]]];
        try done; try (by apply Hno in Hj); eauto.
    + rewrite List.filter_app, Hget. simpl. lia.
    + intros j. rewrite !elem_of_app, !elem_of_cons, !elem_of_nil.
      intros [Hj|[?|[?|[[= ->]|[]]]]]; try done; [by apply Hno in Hj|].
      eauto.
    + intros j Hj. apply list_lookup_insert_ne. intros ->. apply Hj.
      rewrite !elem_of_app, !elem_of_cons. auto.
  - rewrite (raise_failure_no_queue E k s2 p) in Hfail by done.
    inversion Hfail; subst; simpl. split_and!.
    + intros j. rewrite !elem_of_app, !elem_of_cons, !elem_of_nil.
      intros [[Hj|[?|[]]]|[Hj|[?|[]]]];
        try done; by apply Hno in Hj.
    + rewrite List.filter_app, Hget. simpl. lia.
    + intros j. rewrite !elem_of_app, !elem_of_cons, !elem_of_nil.
      intros [Hj|[?|[]]]; try done. by apply Hno in Hj.
    + intros j _. by rewrite Hq.
Qed.

Lemma join_reads_one_channel_witness :
  (∀ j, EvQueueEmpty j ∈ log Demo.failed3.2 ∨ EvQueueGet j ∈ log Demo.failed3.2 →
        ∃ ready, Some [11] = Some ready
                 ∧ designated ready Demo.context3 = Some j)
  ∧ (length (List.filter is_queue_get (log Demo.failed3.2)) ≤ 1)%nat
  ∧ (∀ j, EvQueueGet j ∈ log Demo.failed3.2 →
        ∃ m rest, error_queues Demo.context3 !! j = Some (m :: rest)
                  ∧ error_queues (ctx Demo.failed3.2)
                    = <[j := rest]> (error_queues Demo.context3))
  ∧ (∀ j, EvQueueGet j ∉ log Demo.failed3.2 →
        error_queues (ctx Demo.failed3.2) !! j
        = error_queues Demo.context3 !! j).
Proof.
  apply (join_reads_one_channel Demo.linux (Some [11]) Demo.context3
           Demo.failed3.1).
  apply surjective_pairing.
Defined.

(** * Further properties of the code *)

(** ** The sentinel dictionary of [ProcessContext.__init__] *)

Lemma sentinel_dict_snoc ps p :
  sentinel_dict (ps ++ [p]) = <[sentinel p := length ps]> (sentinel_dict ps).
Proof.
  unfold sentinel_dict. rewrite imap_app, fold_left_app. simpl.
  by rewrite Nat.add_0_r.
Qed.

Lemma sentinel_dict_lookup_Some ps k i :
  sentinel_dict ps !! k = Some i →
  ∃ p, ps !! i = Some p ∧ sentinel p = k.
Proof.
  revert i. induction ps as [|p ps IH] using rev_ind; intros i.
  { unfold sentinel_dict. simpl. by rewrite lookup_empty. }
  rewrite sentinel_dict_snoc.
  destruct (decide (sentinel p = k)) as [<-|Hne].
  - rewrite lookup_insert_eq. intros [= <-]. exists p.
    by rewrite list_lookup_middle.
  - rewrite lookup_insert_ne by done. intros Hi.
    destruct (IH i Hi) as (q & Hq & Hs). exists q. split; [|done].
    by apply lookup_app_l_Some.
Qed.

Lemma sentinel_dict_is_Some ps k :
  is_Some (sentinel_dict ps !! k) ↔ k ∈ map sentinel ps.
Proof.
  induction ps as [|p ps IH] using rev_ind.
  { unfold sentinel_dict. simpl. rewrite lookup_empty. split.
    - by intros [? ?].
    - by intros ?%elem_of_nil. }
  rewrite sentinel_dict_snoc, map_app, elem_of_app. simpl.
  rewrite list_elem_of_singleton, <- IH.
  destruct (decide (sentinel p = k)) as [<-|Hne].
  - rewrite lookup_insert_eq. split; [by right|eauto].
  - rewrite lookup_insert_ne by done. split; [by left|].
    by intros [?|?].
Qed.

(** The dictionary built by [ProcessContext.__init__] has an entry for
    a sentinel exactly when some process of the list has this sentinel,
    and the entry is the position of a process that has it. *)
Theorem sentinel_dict_sound ps k :
  (is_Some (sentinel_dict ps !! k) ↔ k ∈ map sentinel ps)
  ∧ ∀ i, sentinel_dict ps !! k = Some i →
         ∃ p, ps !! i = Some p ∧ sentinel p = k.
Proof.
  split.
  - apply sentinel_dict_is_Some.
  - intros i Hi. destruct (sentinel_dict_lookup_Some ps k i Hi) as (p & Hp & Hs).
    exists p. by split.
Qed.

Lemma sentinel_dict_sound_witness :
  ∃ p, Demo.workers3 !! 1%nat = Some p ∧ sentinel p = 11.
Proof.
  apply (sentinel_dict_sound Demo.workers3 11).
  vm_compute. reflexivity.
Defined.

Lemma sentinel_dict_lookup_last ps i p :
  ps !! i = Some p →
  (∀ j q, (i < j)%nat → ps !! j = Some q → sentinel q ≠ sentinel p) →
  sentinel_dict ps !! sentinel p = Some i.
Proof.
  revert i p. induction ps as [|q ps IH] using rev_ind; intros i p Hp Hlast.
  { done. }
  rewrite sentinel_dict_snoc.
  destruct (decide (i = length ps)) as [->|Hne].
  - rewrite list_lookup_middle in Hp by done. injection Hp as ->.
    by rewrite lookup_insert_eq.
  - assert (i < length ps)%nat as Hlt.
    { apply lookup_lt_Some in Hp. rewrite length_app in Hp. simpl in Hp. lia. }
    rewrite lookup_app_l in Hp by done.
    rewrite lookup_insert_ne.
    + apply IH; [done|]. intros j q' Hj Hq'. apply (Hlast j q' Hj).
      by apply lookup_app_l_Some.
    + apply (Hlast (length ps) q Hlt). by rewrite list_lookup_middle.
Qed.

(** The dictionary maps the sentinel of the process at position [i] to
    [i] provided no process at a later position has the same sentinel:
    among processes that share a sentinel the last one wins.  So when
    the sentinels differ from process to process, every process is
    found under its own position. *)
Theorem sentinel_dict_last_wins ps i p :
  ps !! i = Some p →
  ((∀ j q, (i < j)%nat → ps !! j = Some q → sentinel q ≠ sentinel p) →
   sentinel_dict ps !! sentinel p = Some i)
  ∧ (NoDup (map sentinel ps) → sentinel_dict ps !! sentinel p = Some i).
Proof.
  intros Hp. split; [by apply sentinel_dict_lookup_last|].
  intros Hnd. apply sentinel_dict_lookup_last; [done|].
  intros j q Hj Hq Heq.
  assert (i = j); [|lia].
  eapply (NoDup_lookup _ _ _ (sentinel p) Hnd).
  - by rewrite list_lookup_fmap, Hp.
  - by rewrite list_lookup_fmap, Hq, <- Heq.
Qed.

Lemma sentinel_dict_last_wins_witness :
  sentinel_dict Demo.workers3
    !! sentinel (mkProcess 100 10 None false (Some 7) (Some (-15)))
  = Some 0%nat.
Proof.
  apply (sentinel_dict_last_wins Demo.workers3 0%nat
           (mkProcess 100 10 None false (Some 7) (Some (-15)))).
  - reflexivity.
  - apply NoDup_cons. split.
    + intros Hin. apply list_elem_of_In in Hin.
      destruct Hin as [H|[H|[]]]; discriminate H.
    + apply NoDup_cons. split; [|apply NoDup_singleton].
      intros Hin. apply list_elem_of_singleton in Hin. discriminate Hin.
Defined.

(** ** [join], phase by phase *)

Lemma join_unfold E ready c :
  size (sentinels c) ≠ 0%nat →
  run (join E (Some ready)) c =
  match scan_ready ready (mkState c [EvWait]) with
  | (Ok None, s1) => (Ok (bool_decide (size (sentinels (ctx s1)) = 0%nat)), s1)
  | (Ok (Some k), s1) =>
      bind (terminate_all (seq 0 (length (processes (ctx s1)))))
           (fun _ => raise_failure E k) s1
  | (Raise e, s1) => (Raise e, s1)
  | (Blocked, s1) => (Blocked, s1)
  end.
Proof.
  intros Hsize. unfold run, join. unfold bind at 1, get_ctx. simpl.
  rewrite bool_decide_false by done.
  unfold bind at 1, emit. simpl. unfold bind at 1.
  destruct (scan_ready ready (mkState c [EvWait])) as [[[k|]|e|] s1]; done.
Qed.

Lemma raise_failure_not_Ok E k s b s' : raise_failure E k s ≠ (Ok b, s').
Proof.
  intros H. destruct (processes (ctx s) !! k) as [p|] eqn:Hp.
  - destruct (error_queues (ctx s) !! k) as [q|] eqn:Hq.
    + rewrite (raise_failure_run E k s p q) in H by done.
      destruct q; [|done]. destruct (exitcode p) as [c|]; [|done].
      destruct (c <? 0)%Z; [|done]. by destruct (Signals E (- c)).
    + by rewrite (raise_failure_no_queue E k s p) in H.
  - unfold raise_failure, process_at, bind, get_ctx, raise in H.
    by rewrite Hp in H.
Qed.

Lemma join_Ok_inv E w c b s' :
  run (join E w) c = (Ok b, s') →
  (sentinels c = ∅ ∧ b = true ∧ s' = mkState c [])
  ∨ (∃ ready, w = Some ready ∧ sentinels c ≠ ∅
       ∧ scan_ready ready (mkState c [EvWait]) = (Ok None, s')
       ∧ b = bool_decide (size (sentinels (ctx s')) = 0%nat)).
Proof.
  intros Hrun.
  destruct (decide (sentinels c = ∅)) as [Hempty|Hne].
  { left. rewrite join_joined in Hrun by done. by inversion Hrun. }
  right.
  assert (size (sentinels c) ≠ 0%nat) as Hsize by by rewrite map_size_empty_iff.
  destruct w as [ready|].
  2:{ unfold run, join, bind, get_ctx, emit, block in Hrun. simpl in Hrun.
      by rewrite bool_decide_false in Hrun by done. }
  exists ready. rewrite join_unfold in Hrun by done.
  destruct (scan_ready ready (mkState c [EvWait])) as [[[k|]|e|] s1]; try done.
  - apply bind_inv in Hrun as [([] & s2 & _ & Hfail)|[(e & _ & ?)|[_ ?]]];
      [|done..].
    by apply raise_failure_not_Ok in Hfail.
  - by inversion Hrun.
Qed.

(** What a scan that designates nobody has done: every key of [ready]
    was in the mapping and is removed, and the process it stood for has
    exit status zero. *)
Lemma scan_ready_Ok_None ready s s' :
  scan_ready ready s = (Ok None, s') →
  ∀ k, k ∈ ready →
    sentinels (ctx s') !! k = None
    ∧ ∃ i p, sentinels (ctx s) !! k = Some i
             ∧ processes (ctx s') !! i = Some p ∧ exitcode p = Some 0.
Proof.
  revert s. induction ready as [|k0 ready IH]; intros s H k Hk.
  { by apply elem_of_nil in Hk. }
  simpl in H.
  apply bind_inv in H as [(index & s1 & Hpop & H)|[(e & _ & ?)|[_ ?]]]; [|done..].
  apply bind_inv in H as [([] & s2 & Hjoin & H)|[(e & _ & ?)|[_ ?]]]; [|done..].
  apply bind_inv in H as [(p & s3 & Hat & H)|[(e & _ & ?)|[_ ?]]]; [|done..].
  apply process_at_Ok in Hat as [-> Hp].
  destruct (exitcode_nonzero (exitcode p)) eqn:Hnz; [by inversion H|].
  pose proof (shrinks_Process_join [] _ _ _ _ Hjoin) as [Hsub2 _].
  pose proof (shrinks_scan_ready ready ready (reflexivity _) _ _ _ H) as [Hsub3 _].
  pose proof (processes_evolve_scan_ready _ _ _ _ H) as [_ Hev].
  assert (sentinels (ctx s) !! k0 = Some index
          ∧ sentinels (ctx s1) = delete k0 (sentinels (ctx s))) as [Hk0 Hs1].
  { run_prim Hpop. done. }
  assert (sentinels (ctx s1) ⊆ sentinels (ctx s)) as Hsub1.
  { rewrite Hs1. apply delete_subseteq. }
  apply elem_of_cons in Hk as [->|Hk].
  - split.
    + eapply lookup_weaken_None; [|exact Hsub3].
      eapply lookup_weaken_None; [|exact Hsub2].
      rewrite Hs1. apply lookup_delete_eq.
    + destruct (Hev _ _ Hp) as (p' & Hp' & _ & Hex).
      exists index, p'. split_and!; [done..|]. apply Hex.
      destruct (exitcode p) as [[| |]|]; done.
  - destruct (IH _ H k Hk) as [Hnone (i & q & Hi & Hq & Hex)].
    split; [done|]. exists i, q. split_and!; [|done..].
    eapply lookup_weaken; [|exact Hsub1].
    eapply lookup_weaken; [|exact Hsub2]. done.
Qed.

Lemma processes_evolve_join E w : preserves processes_evolve (join E w).
Proof.
  unfold join.
  preserve_with processes_evolve_refl processes_evolve_trans
    ltac:(first [ apply processes_evolve_emit
                | apply processes_evolve_scan_ready
                | apply processes_evolve_terminate_all
                | apply processes_evolve_raise_failure ]).
Qed.

Lemma processes_evolve_pids s s' :
  processes_evolve s s' → pids (ctx s') = pids (ctx s).
Proof.
  intros [Hlen Hev]. unfold pids. apply list_eq. intros i.
  rewrite !list_lookup_fmap.
  destruct (processes (ctx s) !! i) as [p|] eqn:Hp.
  - destruct (Hev _ _ Hp) as (p' & -> & [Hpid _] & _). simpl. by rewrite Hpid.
  - apply lookup_ge_None in Hp.
    rewrite (proj2 (lookup_ge_None (processes (ctx s')) i)) by lia. done.
Qed.

(** [pids()] gives the same list before and after any [join] call,
    however the call ends, and so after any series of calls. *)
Theorem join_keeps_pids E waits w c :
  pids (ctx (run (join E w) c).2) = pids c
  ∧ pids (join_calls E waits c) = pids c.
Proof.
  assert (∀ w c, pids (ctx (run (join E w) c).2) = pids c) as Hone.
  { intros w0 c0. destruct (run (join E w0) c0) as [r s'] eqn:Hrun.
    apply (processes_evolve_pids (mkState c0 []) s').
    by eapply processes_evolve_join. }
  split; [apply Hone|].
  revert c. induction waits as [|w0 waits IH]; intros c; simpl; [done|].
  by rewrite IH, Hone.
Qed.

(** A [join] call that returns gives true exactly when no worker is
    left in the mapping; it has touched no failure channel, and its log
    shows the wait and waits for processes only: no termination request
    and no fetch of an error report. *)
Theorem join_return_value E w c b s' :
  run (join E w) c = (Ok b, s') →
  (b = true ↔ sentinels (ctx s') = ∅)
  ∧ error_queues (ctx s') = error_queues c
  ∧ Forall is_wait_or_join (log s').
Proof.
  intros Hrun.
  destruct (join_Ok_inv _ _ _ _ _ Hrun)
    as [(Hempty & -> & ->)|(ready & -> & Hne & Hscan & ->)].
  { simpl. split_and!; [done..|constructor]. }
  split_and!.
  - rewrite bool_decide_eq_true. apply map_size_empty_iff.
  - apply (queues_kept_scan_ready _ _ _ _ Hscan).
  - destruct (log_adds_scan_ready is_wait_or_join ready ltac:(done) _ _ _ Hscan)
      as (l & -> & Hl).
    simpl. by constructor.
Qed.

Lemma join_return_value_witness :
  (false = true
   ↔ sentinels (ctx (run (join Demo.linux (Some [12])) Demo.context3).2) = ∅)
  ∧ error_queues (ctx (run (join Demo.linux (Some [12])) Demo.context3).2)
    = error_queues Demo.context3
  ∧ Forall is_wait_or_join
      (log (run (join Demo.linux (Some [12])) Demo.context3).2).
Proof.
  apply (join_return_value Demo.linux (Some [12]) Demo.context3 false).
  vm_compute. reflexivity.
Defined.

(** When a [join] call returns, every worker that [wait] reported ready
    has been taken out of the mapping and has exit status zero, and the
    entries of all other workers are as they were. *)
Theorem join_accounts_for_ready E ready c b s' :
  sentinels c ≠ ∅ →
  run (join E (Some ready)) c = (Ok b, s') →
  (∀ k, k ∈ ready →
     sentinels (ctx s') !! k = None
     ∧ ∃ i p, sentinels c !! k = Some i
              ∧ processes (ctx s') !! i = Some p ∧ exitcode p = Some 0)
  ∧ (∀ k, k ∉ ready → sentinels (ctx s') !! k = sentinels c !! k).
Proof.
  intros Hne Hrun.
  destruct (join_Ok_inv _ _ _ _ _ Hrun)
    as [(Hempty & _)|(ready' & [= <-] & _ & Hscan & _)]; [done|].
  split.
  - intros k Hk. by apply (scan_ready_Ok_None _ _ _ Hscan).
  - intros k Hk.
    destruct (shrinks_scan_ready ready ready (reflexivity _) _ _ _ Hscan)
      as [Hsub Hrem]. simpl in Hsub, Hrem.
    destruct (sentinels c !! k) as [i|] eqn:Hi.
    + destruct (sentinels (ctx s') !! k) as [j|] eqn:Hj.
      * by rewrite (lookup_weaken _ _ _ _ Hj Hsub) in Hi.
      * exfalso. apply Hk. apply Hrem; [by rewrite Hi|done].
    + by eapply lookup_weaken_None.
Qed.

Lemma join_accounts_for_ready_witness :
  (∀ k, k ∈ [11; 10] →
     sentinels Demo.joined2 !! k = None
     ∧ ∃ i p, sentinels Demo.context2 !! k = Some i
              ∧ processes Demo.joined2 !! i = Some p ∧ exitcode p = Some 0)
  ∧ (∀ k, k ∉ [11; 10] →
     sentinels Demo.joined2 !! k = sentinels Demo.context2 !! k).
Proof.
  apply (join_accounts_for_ready Demo.linux [11; 10] Demo.context2 true
           (run (join Demo.linux (Some [11; 10])) Demo.context2).2).
  - intros H. apply (f_equal (fun m => m !! 10)) in H. vm_compute in H.
    discriminate H.
  - vm_compute. reflexivity.
Defined.

(** ** The scan, step by step *)

Lemma Process_join_run i s p c :
  processes (ctx s) !! i = Some p →
  fate p = Some c →
  Process_join i s =
  (Ok tt,
   mkState (set_processes (<[i := with_exitcode c p]> (processes (ctx s))) (ctx s))
           (log s ++ [EvJoin i])%list).
Proof.
  intros Hp Hf.
  unfold Process_join, process_at, update_process, emit, put_ctx, get_ctx,
    bind, ret. simpl.
  rewrite Hp. simpl. by rewrite Hf.
Qed.

Lemma scan_ready_step k ready s i p c :
  sentinels (ctx s) !! k = Some i →
  processes (ctx s) !! i = Some p →
  fate p = Some c →
  let s1 :=
    mkState (mkProcessContext (error_queues (ctx s))
                              (<[i := with_exitcode c p]> (processes (ctx s)))
                              (delete k (sentinels (ctx s))))
            (log s ++ [EvJoin i])%list in
  scan_ready (k :: ready) s =
  if decide (c = 0) then scan_ready ready s1 else (Ok (Some i), s1).
Proof.
  intros Hk Hp Hf. simpl.
  unfold sentinels_pop. unfold bind at 1. unfold bind at 1.
  unfold get_ctx at 1. rewrite Hk.
  unfold bind at 1, put_ctx, ret at 1.
  unfold bind at 1.
  erewrite Process_join_run by (simpl; eassumption). simpl.
  unfold bind at 1, process_at, bind at 1, get_ctx, ret at 1. simpl.
  rewrite list_lookup_insert_eq by (by eapply lookup_lt_Some). simpl.
  destruct (decide (c = 0)) as [->|Hne]; [done|].
  by destruct c.
Qed.

Lemma fates_kept_join_update s i p c l m :
  processes (ctx s) !! i = Some p →
  fate p = Some c →
  fates_kept s
    (mkState (mkProcessContext (error_queues (ctx s))
                               (<[i := with_exitcode c p]> (processes (ctx s)))
                               m) l).
Proof.
  intros Hp Hf j q Hq. simpl. destruct (decide (j = i)) as [->|Hne].
  - exists (with_exitcode c p).
    rewrite list_lookup_insert_eq by (by eapply lookup_lt_Some).
    split; [done|]. assert (q = p) by congruence. subst q.
    by apply fate_with_exitcode.
  - exists q. by rewrite list_lookup_insert_ne.
Qed.

(** Ready workers with exit status zero at the head of the list are
    taken out of the mapping one after the other, and the scan goes on
    with the rest of the list. *)
Lemma scan_ready_prefix zeros tail s :
  NoDup zeros →
  (∀ z, z ∈ zeros →
     ∃ j q, sentinels (ctx s) !! z = Some j
            ∧ processes (ctx s) !! j = Some q ∧ fate q = Some 0) →
  ∃ s2, scan_ready (zeros ++ tail) s = scan_ready tail s2
        ∧ fates_kept s s2
        ∧ (∀ k, sentinels (ctx s2) !! k
                = if decide (k ∈ zeros) then None else sentinels (ctx s) !! k)
        ∧ error_queues (ctx s2) = error_queues (ctx s)
        ∧ log_adds is_wait_or_join s s2.
Proof.
  revert s. induction zeros as [|z zeros IH]; intros s Hnd Hzeros.
  { exists s. split_and!; [done|apply fates_kept_refl| |done|apply log_adds_refl].
    intros k. by rewrite decide_False by apply not_elem_of_nil. }
  apply NoDup_cons in Hnd as [Hz Hnd].
  destruct (Hzeros z ltac:(left)) as (i & p & Hi & Hp & Hf).
  rewrite <- app_comm_cons, (scan_ready_step z _ s i p 0 Hi Hp Hf).
  rewrite decide_True by done.
  set (s1 := mkState _ _).
  assert (fates_kept s s1) as Hfk by by apply fates_kept_join_update.
  destruct (IH s1 Hnd) as (s2 & Hscan & Hfk2 & Hsent & Hq & Hlog).
  { intros z' Hz'. assert (z' ≠ z) by (intros ->; done).
    destruct (Hzeros z' ltac:(by right)) as (j & q & Hj & Hq & Hfq).
    destruct (Hfk j q Hq) as (q' & Hq' & Hfq').
    exists j, q'. simpl. rewrite lookup_delete_ne by done.
    split_and!; [done..|congruence]. }
  exists s2. split_and!; [done|by eapply fates_kept_trans| |done|].
  - intros k. rewrite Hsent. simpl.
    destruct (decide (k = z)) as [->|Hne].
    + rewrite (decide_True (P := z ∈ z :: zeros)) by left.
      case_decide; [done|]. apply lookup_delete_eq.
    + rewrite lookup_delete_ne by done.
      destruct (decide (k ∈ zeros)).
      * by rewrite decide_True by by right.
      * rewrite decide_False; [done|]. by intros [?|?]%elem_of_cons.
  - eapply log_adds_trans; [|exact Hlog].
    exists [EvJoin i]. split; [done|]. by repeat constructor.
Qed.

(** The tie-break of [join]: when the ready list begins with workers of
    exit status zero, followed by a worker whose exit status is not
    zero, that worker is the one designated, whatever follows it in the
    list; the workers before it and the designated one are taken out
    of the mapping, and the entries of all others stay. *)
Theorem first_failure_designated zeros k rest c i p cd :
  NoDup (zeros ++ [k]) →
  (∀ z, z ∈ zeros →
     ∃ j q, sentinels c !! z = Some j
            ∧ processes c !! j = Some q ∧ fate q = Some 0) →
  sentinels c !! k = Some i →
  processes c !! i = Some p →
  fate p = Some cd →
  cd ≠ 0 →
  designated (zeros ++ k :: rest) c = Some i
  ∧ ∀ k', sentinels (ctx (after_scan (zeros ++ k :: rest) c)) !! k'
          = if decide (k' ∈ zeros ++ [k]) then None else sentinels c !! k'.
Proof.
  intros Hnd Hzeros Hk Hp Hf Hcd.
  apply NoDup_app in Hnd as (Hnd & Hdisj & _).
  assert (k ∉ zeros) as Hkz by (intros Hin; apply (Hdisj k Hin); left).
  destruct (scan_ready_prefix zeros (k :: rest) (mkState c [EvWait]) Hnd Hzeros)
    as (s2 & Hscan & Hfk & Hsent & _ & _).
  destruct (Hfk i p Hp) as (p2 & Hp2 & Hf2).
  assert (sentinels (ctx s2) !! k = Some i) as Hk2.
  { rewrite Hsent. by rewrite decide_False. }
  rewrite (scan_ready_step k rest s2 i p2 cd Hk2 Hp2) in Hscan by congruence.
  rewrite decide_False in Hscan by done.
  assert (size (sentinels c) ≠ 0%nat) as Hsize.
  { rewrite map_size_empty_iff. intros Hempty. by rewrite Hempty in Hk. }
  split.
  - unfold designated. rewrite bool_decide_false by done. by rewrite Hscan.
  - intros k'. unfold after_scan. rewrite Hscan. simpl.
    destruct (decide (k' = k)) as [->|Hne].
    + rewrite lookup_delete_eq.
      by rewrite decide_True by (apply elem_of_app; right; left).
    + rewrite lookup_delete_ne by done. rewrite Hsent.
      destruct (decide (k' ∈ zeros)).
      * by rewrite decide_True by (apply elem_of_app; by left).
      * rewrite decide_False; [done|].
        intros [?|Hin]%elem_of_app; [done|].
        by apply list_elem_of_singleton in Hin.
Qed.

Lemma first_failure_designated_witness :
  designated ([12] ++ 11 :: [10]) Demo.context3 = Some 1%nat
  ∧ ∀ k', sentinels (ctx (after_scan ([12] ++ 11 :: [10]) Demo.context3)) !! k'
          = if decide (k' ∈ [12] ++ [11]) then None
            else sentinels Demo.context3 !! k'.
Proof.
  apply (first_failure_designated [12] 11 [10] Demo.context3 1%nat
           (mkProcess 101 11 None false (Some 1) (Some (-15))) 1).
  - apply NoDup_cons. split; [|apply NoDup_singleton].
    intros Hin. apply list_elem_of_singleton in Hin. discriminate Hin.
  - intros z Hz. apply list_elem_of_singleton in Hz as ->.
    exists 2%nat, (mkProcess 102 12 None false (Some 0) (Some (-15))).
    split_and!; vm_compute; reflexivity.
  - vm_compute. reflexivity.
  - reflexivity.
  - reflexivity.
  - discriminate.
Defined.

(** ** A group whose workers all exit with status zero *)

Lemma scan_ready_raises ready s e s' :
  scan_ready ready s = (Raise e, s') →
  (∃ k, e = KeyError k) ∨ e = IndexError.
Proof.
  revert s. induction ready as [|k ready IH]; intros s H; simpl in H.
  { by inversion H. }
  apply bind_inv in H as [(index & s1 & _ & H)|[(e0 & Hpop & [= <-])|[_ ?]]];
    [|by run_prim Hpop; eauto|done].
  apply bind_inv in H as [([] & s2 & _ & H)|[(e0 & Hjoin & [= <-])|[_ ?]]];
    [|by run_prim Hjoin; eauto|done].
  apply bind_inv in H as [(p & s3 & _ & H)|[(e0 & Hat & [= <-])|[_ ?]]];
    [|by run_prim Hat; eauto|done].
  destruct (exitcode_nonzero (exitcode p)); [by inversion H|]. by eapply IH.
Qed.

Lemma fates_kept_back s s' i p' :
  processes_evolve s s' → fates_kept s s' →
  processes (ctx s') !! i = Some p' →
  ∃ p, processes (ctx s) !! i = Some p ∧ fate p' = fate p.
Proof.
  intros [Hlen _] Hfk Hp'.
  assert (is_Some (processes (ctx s) !! i)) as [p Hp].
  { apply lookup_lt_is_Some. rewrite <- Hlen. by eapply lookup_lt_Some. }
  destruct (Hfk i p Hp) as (q & Hq & Hfq). exists p. split; [done|congruence].
Qed.

Lemma scan_ready_Blocked ready s s' :
  scan_ready ready s = (Blocked, s') →
  ∃ i p, processes (ctx s) !! i = Some p ∧ fate p = None.
Proof.
  revert s. induction ready as [|k ready IH]; intros s H; simpl in H.
  { by inversion H. }
  apply bind_inv in H as [(index & s1 & Hpop & H)|[(e0 & _ & ?)|[Hpop _]]];
    [|done|by run_prim Hpop].
  assert (processes (ctx s1) = processes (ctx s)) as Hps by by run_prim Hpop.
  apply bind_inv in H as [([] & s2 & Hjoin & H)|[(e0 & _ & ?)|[Hjoin _]]];
    [|done|].
  2:{ unfold Process_join in Hjoin.
      apply bind_inv in Hjoin
        as [(p & s0 & Hat & Hjoin)|[(e0 & _ & ?)|[Hat _]]]; [|done|by run_prim Hat].
      apply process_at_Ok in Hat as [-> Hp]. rewrite Hps in Hp.
      exists index, p. split; [done|].
      destruct (fate p) eqn:Hf; [|done]. by run_prim Hjoin. }
  apply bind_inv in H as [(p & s3 & Hat & H)|[(e0 & _ & ?)|[Hat _]]];
    [|done|by run_prim Hat].
  apply process_at_Ok in Hat as [-> _].
  destruct (exitcode_nonzero (exitcode p)); [by inversion H|].
  destruct (IH _ H) as (i & q & Hq & Hfq).
  destruct (fates_kept_back s1 s2 i q
              (processes_evolve_Process_join _ _ _ _ Hjoin)
              (fates_kept_Process_join _ _ _ _ Hjoin) Hq)
    as (q0 & Hq0 & Hf0).
  exists i, q0. rewrite <- Hps. split; [done|congruence].
Qed.

Lemma scan_ready_designates_nonzero_fate ready s k s1 :
  scan_ready ready s = (Ok (Some k), s1) →
  ∃ p c, processes (ctx s) !! k = Some p ∧ fate p = Some c ∧ c ≠ 0.
Proof.
  intros Hscan.
  destruct (scan_ready_designates _ _ _ _ Hscan) as (p1 & c1 & Hp1 & Hc1 & Hne).
  destruct (fates_kept_back s s1 k p1
              (processes_evolve_scan_ready _ _ _ _ Hscan)
              (fates_kept_scan_ready _ _ _ _ Hscan) Hp1)
    as (p & Hp & Hf).
  exists p, c1. split_and!; [done| |done].
  rewrite <- Hf. unfold fate. by rewrite Hc1.
Qed.

(** When every worker of the group ends with exit status zero, no
    [join] call raises a failure record or sends a termination request,
    and a call for which [wait] returns does not block. *)
Theorem no_failure_when_all_exit_zero E w c r s' :
  (∀ p, p ∈ processes c → fate p = Some 0) →
  run (join E w) c = (r, s') →
  (∀ e, r = Raise e → failure_record e = None)
  ∧ Forall is_wait_or_join (log s')
  ∧ (∀ ready, w = Some ready → r ≠ Blocked).
Proof.
  intros Hzero Hrun.
  destruct (decide (sentinels c = ∅)) as [Hempty|Hne].
  { rewrite join_joined in Hrun by done. inversion Hrun; subst.
    split_and!; [done|constructor|done]. }
  assert (size (sentinels c) ≠ 0%nat) as Hsize by by rewrite map_size_empty_iff.
  destruct w as [ready|].
  2:{ unfold run, join, bind, get_ctx, emit, block in Hrun. simpl in Hrun.
      rewrite bool_decide_false in Hrun by done. inversion Hrun; subst.
      split_and!; [done|by repeat constructor|done]. }
  rewrite join_unfold in Hrun by done.
  destruct (scan_ready ready (mkState c [EvWait])) as [rs s1] eqn:Hscan.
  assert (Forall is_wait_or_join (log s1)) as Hlog.
  { destruct (log_adds_scan_ready is_wait_or_join ready ltac:(done) _ _ _ Hscan)
      as (l & -> & Hl). simpl. by constructor. }
  destruct rs as [[k|]|e|].
  - exfalso.
    destruct (scan_ready_designates_nonzero_fate _ _ _ _ Hscan)
      as (p & cd & Hp & Hf & Hcd).
    simpl in Hp. rewrite (Hzero p) in Hf by (by eapply list_elem_of_lookup_2).
    congruence.
  - inversion Hrun; subst. split_and!; [done|done|]. by intros ? _.
  - inversion Hrun; subst. split_and!; [|done|by intros ? _].
    intros e0 [= <-].
    by destruct (scan_ready_raises _ _ _ _ Hscan) as [[k ->]| ->].
  - exfalso. destruct (scan_ready_Blocked _ _ _ Hscan) as (i & p & Hp & Hf).
    simpl in Hp. rewrite (Hzero p) in Hf by (by eapply list_elem_of_lookup_2).
    done.
Qed.

Lemma no_failure_when_all_exit_zero_witness :
  (∀ e, (run (join Demo.linux (Some [11; 10])) Demo.context2).1 = Raise e →
        failure_record e = None)
  ∧ Forall is_wait_or_join
      (log (run (join Demo.linux (Some [11; 10])) Demo.context2).2)
  ∧ (∀ ready, Some [11; 10] = Some ready →
       (run (join Demo.linux (Some [11; 10])) Demo.context2).1 ≠ Blocked).
Proof.
  apply (no_failure_when_all_exit_zero Demo.linux (Some [11; 10]) Demo.context2).
  - intros p Hp. apply list_elem_of_In in Hp.
    destruct Hp as [<-|[<-|[]]]; reflexivity.
  - apply surjective_pairing.
Defined.

(** ** The log is a journal *)

Lemma journals_ret {A} (a : A) : journals (ret a).
Proof. intros c l. unfold ret. simpl. by rewrite app_nil_r. Qed.

Lemma journals_raise {A} e : journals (@raise A e).
Proof. intros c l. unfold raise. simpl. by rewrite app_nil_r. Qed.

Lemma journals_block {A} : journals (@block A).
Proof. intros c l. unfold block. simpl. by rewrite app_nil_r. Qed.

Lemma journals_lift {A} (x : res A) : journals (lift x).
Proof. intros c l. unfold lift. simpl. by rewrite app_nil_r. Qed.

Lemma journals_emit ev : journals (emit ev).
Proof. intros c l. done. Qed.

Lemma journals_put_ctx c0 : journals (put_ctx c0).
Proof. intros c l. unfold put_ctx. simpl. by rewrite app_nil_r. Qed.

Lemma journals_bind {A B} (m : M A) (k : A -> M B) :
  journals m → (∀ a, journals (k a)) → journals (bind m k).
Proof.
  intros Hm Hk c l. unfold bind. rewrite (Hm c l).
  destruct (m (mkState c [])) as [[a|e|] [c1 l1]]; simpl.
  - rewrite (Hk a c1 (l ++ l1)%list), (Hk a c1 l1).
    destruct (k a (mkState c1 [])) as [r2 [c2 l2]]. simpl.
    by rewrite app_assoc.
  - done.
  - done.
Qed.

(** A computation that first reads the context. *)
Lemma journals_with_ctx {A} (k : ProcessContext -> M A) :
  (∀ c, journals (k c)) → journals (bind get_ctx k).
Proof. intros Hk c l. unfold bind, get_ctx. apply Hk. Qed.

Ltac journals_tac leaf :=
  repeat first
    [ assumption
    | leaf
    | apply journals_ret
    | apply journals_raise
    | apply journals_block
    | apply journals_lift
    | apply journals_emit
    | apply journals_put_ctx
    | apply journals_with_ctx; intros ?
    | apply journals_bind; [ | intros ? ]
    | match goal with
      | |- journals (match ?x with _ => _ end) => destruct x
      | |- journals (let (_, _) := ?x in _) => destruct x
      end ].

Lemma journals_sentinels_pop k : journals (sentinels_pop k).
Proof. unfold sentinels_pop. journals_tac fail. Qed.

Lemma journals_process_at i : journals (process_at i).
Proof. unfold process_at. journals_tac fail. Qed.

Lemma journals_Process_join i : journals (Process_join i).
Proof.
  unfold Process_join, update_process.
  journals_tac ltac:(apply journals_process_at).
Qed.

Lemma journals_Process_terminate i : journals (Process_terminate i).
Proof.
  unfold Process_terminate, update_process.
  journals_tac ltac:(apply journals_process_at).
Qed.

Lemma journals_queue_empty i : journals (queue_empty i).
Proof. unfold queue_empty. journals_tac fail. Qed.

Lemma journals_queue_get i : journals (queue_get i).
Proof. unfold queue_get. journals_tac fail. Qed.

Lemma journals_scan_ready ready : journals (scan_ready ready).
Proof.
  induction ready as [|k ready IH]; simpl;
    journals_tac ltac:(first [ apply journals_sentinels_pop
                             | apply journals_Process_join
                             | apply journals_process_at ]).
Qed.

Lemma journals_terminate_all indices : journals (terminate_all indices).
Proof.
  induction indices as [|i indices IH]; simpl;
    journals_tac ltac:(first [ apply journals_Process_terminate
                             | apply journals_Process_join
                             | apply journals_process_at ]).
Qed.

Lemma journals_raise_failure E k : journals (raise_failure E k).
Proof.
  unfold raise_failure.
  journals_tac ltac:(first [ apply journals_process_at
                           | apply journals_queue_empty
                           | apply journals_queue_get ]).
Qed.

Lemma journals_join E w : journals (join E w).
Proof.
  unfold join.
  journals_tac ltac:(first [ apply journals_scan_ready
                           | apply journals_terminate_all
                           | apply journals_raise_failure ]).
Qed.

(** ** The launch *)

Lemma start_workers_run {Args} E (fn : nat -> Args -> fn_outcome) args range s :
  sentinels (ctx s) = ∅ →
  start_workers E fn args range s =
  (Ok tt,
   mkState
     (mkProcessContext
        (error_queues (ctx s) ++ map snd (map (start_worker E fn args) range))
        (processes (ctx s) ++ map fst (map (start_worker E fn args) range))
        ∅)
     (log s ++ map EvStart range)%list).
Proof.
  revert s. induction range as [|i range IH]; intros [[qs ps m] l] Hm;
    simpl in Hm; subst m.
  { simpl. by rewrite !app_nil_r. }
  simpl. destruct (start_worker E fn args i) as [process error_queue] eqn:Hw.
  unfold bind at 1, emit. simpl.
  unfold bind at 1, get_ctx. simpl.
  unfold bind at 1, put_ctx. simpl.
  rewrite IH by done. simpl.
  by rewrite <- !app_assoc.
Qed.

Lemma launched_process {Args} E (fn : nat -> Args -> fn_outcome) args n i :
  (i < n)%nat →
  processes (launched E fn args n) !! i = Some (start_worker E fn args i).1
  ∧ error_queues (launched E fn args n) !! i = Some (start_worker E fn args i).2.
Proof.
  intros Hi. unfold launched. simpl. rewrite !list_lookup_fmap.
  by rewrite lookup_seq_lt.
Qed.

Lemma launched_lengths {Args} E (fn : nat -> Args -> fn_outcome) args n :
  length (processes (launched E fn args n)) = n
  ∧ length (error_queues (launched E fn args n)) = n.
Proof. unfold launched. simpl. by rewrite !length_map, length_seq. Qed.

Lemma launched_sentinel {Args} E (fn : nat -> Args -> fn_outcome) args n i :
  (∀ i j, (i < n)%nat → (j < n)%nat →
          new_sentinel E i = new_sentinel E j → i = j) →
  (i < n)%nat →
  sentinels (launched E fn args n) !! new_sentinel E i = Some i.
Proof.
  intros Hinj Hi.
  destruct (launched_process E fn args n i Hi) as [Hp _].
  change (new_sentinel E i) with (sentinel (start_worker E fn args i).1).
  apply sentinel_dict_lookup_last; [exact Hp|].
  intros j q Hj Hq.
  change (processes (launched E fn args n) !! j = Some q) in Hq.
  assert (j < n)%nat as Hjn.
  { apply lookup_lt_Some in Hq.
    by rewrite (proj1 (launched_lengths E fn args n)) in Hq. }
  destruct (launched_process E fn args n j Hjn) as [Hq' _].
  rewrite Hq' in Hq. injection Hq as <-. simpl.
  intros Heq. apply Hinj in Heq; [lia|done..].
Qed.

Lemma launched_sentinel_inv {Args} E (fn : nat -> Args -> fn_outcome) args n k i :
  sentinels (launched E fn args n) !! k = Some i →
  (i < n)%nat ∧ k = new_sentinel E i.
Proof.
  intros Hk. apply sentinel_dict_lookup_Some in Hk as (p & Hp & <-).
  change (processes (launched E fn args n) !! i = Some p) in Hp.
  assert (i < n)%nat as Hi.
  { apply lookup_lt_Some in Hp.
    by rewrite (proj1 (launched_lengths E fn args n)) in Hp. }
  split; [done|].
  destruct (launched_process E fn args n i Hi) as [Hp' _].
  rewrite Hp' in Hp. by injection Hp as <-.
Qed.

Lemma start_processes_launch {Args} E (fn : nat -> Args -> fn_outcome) args
    nprocs join daemon start_method waits s :
  _supports_context E = true →
  start_method ∈ start_methods E →
  start_processes E fn args nprocs join daemon start_method waits s =
  let c := launched E fn args (Z.to_nat nprocs) in
  let s1 := mkState c (log s ++ EvConfigure
                            :: map EvStart (seq 0 (Z.to_nat nprocs)))%list in
  if join
  then bind (join_loop E waits) (fun _ => ret None) s1
  else (Ok (Some c), s1).
Proof.
  intros Hver Hmeth.
  unfold start_processes, _python_version_check. rewrite Hver.
  unfold bind at 1, lift. unfold bind at 1, emit. simpl.
  rewrite bool_decide_true by done.
  unfold bind at 1, ret at 1. unfold bind at 1, put_ctx. simpl.
  unfold bind at 1. rewrite start_workers_run by done. simpl.
  unfold bind at 1, get_ctx. simpl.
  unfold ProcessContext__init__, _python_version_check. rewrite Hver.
  unfold bind at 1, lift. unfold bind at 1. simpl.
  rewrite <- app_assoc. simpl. by destruct join.
Qed.

(** On a supported Python version and with an accepted start method,
    [start_processes] with [join] false starts exactly [nprocs] workers,
    in the order of their indices and after configuring the error
    reporter, and returns a context that holds one process and one
    failure channel per worker, the process of worker [i] carrying the
    pid and the sentinel it was started with; a negative [nprocs] starts
    none. *)
Theorem start_processes_builds_group {Args} E
    (fn : nat -> Args -> fn_outcome) args nprocs daemon start_method waits s :
  _supports_context E = true →
  start_method ∈ start_methods E →
  ∃ c, start_processes E fn args nprocs false daemon start_method waits s
       = (Ok (Some c),
          mkState c (log s ++ EvConfigure
                          :: map EvStart (seq 0 (Z.to_nat nprocs)))%list)
       ∧ length (processes c) = Z.to_nat nprocs
       ∧ length (error_queues c) = Z.to_nat nprocs
       ∧ pids c = map (new_pid E) (seq 0 (Z.to_nat nprocs))
       ∧ (∀ k i, sentinels c !! k = Some i →
                 (i < Z.to_nat nprocs)%nat ∧ k = new_sentinel E i).
Proof.
  intros Hver Hmeth. exists (launched E fn args (Z.to_nat nprocs)).
  rewrite start_processes_launch by done. simpl.
  destruct (launched_lengths E fn args (Z.to_nat nprocs)) as [Hlp Hlq].
  split_and!; [done..| |].
  - unfold pids, launched. simpl. rewrite !map_map. by apply map_ext.
  - apply launched_sentinel_inv.
Qed.

Lemma start_processes_builds_group_witness :
  ∃ c, start_processes Demo.linux Demo.fn tt 3 false false "spawn" []
         (mkState (mkProcessContext [] [] ∅) [])
       = (Ok (Some c),
          mkState c ([] ++ EvConfigure :: map EvStart (seq 0 (Z.to_nat 3)))%list)
       ∧ length (processes c) = Z.to_nat 3
       ∧ length (error_queues c) = Z.to_nat 3
       ∧ pids c = map (new_pid Demo.linux) (seq 0 (Z.to_nat 3))
       ∧ (∀ k i, sentinels c !! k = Some i →
                 (i < Z.to_nat 3)%nat ∧ k = new_sentinel Demo.linux i).
Proof.
  apply (start_processes_builds_group Demo.linux Demo.fn tt 3 false "spawn" []
           (mkState (mkProcessContext [] [] ∅) [])).
  - reflexivity.
  - right. left.
Defined.

Lemma _wrap_returns {Args} E (fn : nat -> Args -> fn_outcome) i args q :
  _pr_set_pdeathsig E SIGINT = Ok tt →
  fn i args = fn_returns →
  _wrap E fn i args q = mkWrapped (Ok tt) q true.
Proof. intros Hsig Hfn. unfold _wrap. by rewrite Hsig, Hfn. Qed.

Lemma join_on_state E w c l :
  join E w (mkState c l)
  = ((run (join E w) c).1,
     mkState (ctx (run (join E w) c).2) (l ++ log (run (join E w) c).2)%list).
Proof. apply journals_join. Qed.

Lemma join_all_zero_prefix E ready c :
  NoDup ready →
  (∀ z, z ∈ ready →
     ∃ j q, sentinels c !! z = Some j
            ∧ processes c !! j = Some q ∧ fate q = Some 0) →
  ∃ s', run (join E (Some ready)) c
        = (Ok (bool_decide (size (sentinels (ctx s')) = 0%nat)), s')
        ∧ fates_kept (mkState c []) s'
        ∧ (∀ k, sentinels (ctx s') !! k
                = if decide (k ∈ ready) then None else sentinels c !! k)
        ∧ Forall is_wait_or_join (log s').
Proof.
  intros Hnd Hzeros.
  destruct (decide (sentinels c = ∅)) as [Hempty|Hne].
  { rewrite join_joined by done. exists (mkState c []). split_and!.
    - simpl. by rewrite bool_decide_true by by rewrite Hempty, map_size_empty.
    - apply fates_kept_refl.
    - intros k. simpl. case_decide; [|done]. by rewrite Hempty, lookup_empty.
    - constructor. }
  assert (size (sentinels c) ≠ 0%nat) as Hsize by by rewrite map_size_empty_iff.
  rewrite join_unfold by done.
  destruct (scan_ready_prefix ready [] (mkState c [EvWait]) Hnd Hzeros)
    as (s2 & Hscan & Hfk & Hsent & _ & (l & Hl & HP)).
  rewrite app_nil_r in Hscan. rewrite Hscan. simpl.
  exists s2. split_and!; [done..|].
  rewrite Hl. simpl. by constructor.
Qed.

Lemma join_loop_all_zero E waits c l :
  (∀ k i, sentinels c !! k = Some i →
     ∃ q, processes c !! i = Some q ∧ fate q = Some 0) →
  NoDup (concat waits) →
  (∀ k, is_Some (sentinels c !! k) ↔ k ∈ concat waits) →
  ∃ s', join_loop E waits (mkState c l) = (Ok tt, s')
        ∧ sentinels (ctx s') = ∅
        ∧ log_adds is_wait_or_join (mkState c l) s'.
Proof.
  revert c l. induction waits as [|ready waits IH]; intros c l Hzero Hnd Hdom.
  { assert (sentinels c = ∅) as Hempty.
    { apply map_eq. intros k. rewrite lookup_empty.
      apply eq_None_not_Some. rewrite Hdom. simpl. apply not_elem_of_nil. }
    exists (mkState c l). simpl. unfold bind.
    rewrite join_joined_state by done.
    split_and!; [done..|apply log_adds_refl]. }
  simpl in Hnd, Hdom. apply NoDup_app in Hnd as (Hnd1 & Hdisj & Hnd2).
  simpl. unfold bind. rewrite join_on_state.
  destruct (join_all_zero_prefix E ready c) as (s2 & Hrun & Hfk & Hsent & Hlog).
  { done. }
  { intros z Hz. destruct (proj2 (Hdom z)) as [i Hi].
    { apply elem_of_app. by left. }
    destruct (Hzero z i Hi) as (q & Hq & Hf). eauto. }
  rewrite Hrun. simpl.
  assert (log_adds is_wait_or_join (mkState c l)
            (mkState (ctx s2) (l ++ log s2)%list)) as Hlog2.
  { exists (log s2). done. }
  case_bool_decide as Hsize.
  - eexists. split_and!; [done| |done]. simpl.
    by apply map_size_empty_iff.
  - destruct (IH (ctx s2) (l ++ log s2)%list) as (s' & Hloop & Hempty & Hlog').
    + intros k i Hk. rewrite Hsent in Hk. case_decide; [done|].
      destruct (Hzero k i Hk) as (q & Hq & Hf).
      destruct (Hfk i q Hq) as (q' & Hq' & Hf').
      exists q'. split; [done|congruence].
    + done.
    + intros k. rewrite Hsent. case_decide as Hin.
      * split; [by intros [? ?]|]. intros Hk. by destruct (Hdisj k Hin).
      * rewrite Hdom, elem_of_app. split; [by intros [?|?]|by right].
    + exists s'. split_and!; [done..|]. by eapply log_adds_trans.
Qed.

(** A launch whose workers all return: on a supported Python version,
    with an accepted start method, [prctl] succeeding and sentinels
    that differ from worker to worker, when the successive calls of
    [wait] report the [n] workers, each once, in any order and any
    grouping, [start_processes] with [join] true returns nothing and
    raises no error; the mapping is then empty and after the starts the
    log shows waits only: no termination request, no access to a
    failure channel or to the error reports. *)
Theorem launch_succeeds {Args} E (fn : nat -> Args -> fn_outcome) args n
    daemon start_method waits s :
  _supports_context E = true →
  start_method ∈ start_methods E →
  _pr_set_pdeathsig E SIGINT = Ok tt →
  (∀ i, (i < n)%nat → fn i args = fn_returns) →
  (∀ i j, (i < n)%nat → (j < n)%nat →
          new_sentinel E i = new_sentinel E j → i = j) →
  concat waits ≡ₚ map (new_sentinel E) (seq 0 n) →
  ∃ s' l,
    start_processes E fn args (Z.of_nat n) true daemon start_method waits s
    = (Ok None, s')
    ∧ sentinels (ctx s') = ∅
    ∧ log s' = (log s ++ EvConfigure :: map EvStart (seq 0 n) ++ l)%list
    ∧ Forall is_wait_or_join l.
Proof.
  intros Hver Hmeth Hsig Hfn Hinj Hperm.
  rewrite start_processes_launch by done. simpl. rewrite Nat2Z.id.
  set (c := launched E fn args n).
  assert (∀ z, z ∈ concat waits ↔ ∃ i, (i < n)%nat ∧ z = new_sentinel E i)
    as Hready.
  { intros z. rewrite Hperm, list_elem_of_fmap. split.
    - intros (i & -> & Hi%elem_of_seq). exists i. split; [lia|done].
    - intros (i & Hi & ->). exists i. split; [done|]. apply elem_of_seq. lia. }
  destruct (join_loop_all_zero E waits c
              (log s ++ EvConfigure :: map EvStart (seq 0 n))%list)
    as (s1 & Hloop & Hempty & (l & Hl & HP)).
  - intros k i [Hi ->]%launched_sentinel_inv.
    exists (start_worker E fn args i).1. split.
    + by apply launched_process.
    + unfold start_worker, exec_fn, fate. simpl.
      by rewrite _wrap_returns by auto.
  - rewrite Hperm. apply NoDup_fmap_2_strong; [|apply NoDup_seq].
    intros i j Hi%elem_of_seq Hj%elem_of_seq. apply Hinj; lia.
  - intros k. rewrite Hready. split.
    + intros [i [Hi ->]%launched_sentinel_inv]. eauto.
    + intros (i & Hi & ->). exists i. by apply launched_sentinel.
  - exists s1, l. unfold bind. rewrite Hloop. simpl.
    split_and!; [done..| |done]. simpl in Hl. by rewrite Hl, <- app_assoc.
Qed.

Lemma launch_succeeds_witness :
  ∃ s' l,
    start_processes Demo.linux Demo.quiet tt (Z.of_nat 2) true false "spawn"
                    [[11]; []; [10]] (mkState (mkProcessContext [] [] ∅) [])
    = (Ok None, s')
    ∧ sentinels (ctx s') = ∅
    ∧ log s' = ([] ++ EvConfigure :: map EvStart (seq 0 2) ++ l)%list
    ∧ Forall is_wait_or_join l.
Proof.
  apply (launch_succeeds Demo.linux Demo.quiet tt 2 false "spawn"
           [[11]; []; [10]] (mkState (mkProcessContext [] [] ∅) [])).
  - reflexivity.
  - right. left.
  - reflexivity.
  - reflexivity.
  - intros i j Hi Hj Heq. simpl in Heq. lia.
  - apply perm_swap.
Defined.

(** A launch in which worker [k] raises: on a supported Python version,
    with an accepted start method, [prctl] succeeding, sentinels that
    differ from worker to worker and workers that exit once a
    termination request reached them, when the user function of worker
    [k] raises an ordinary exception and the first [wait] reports [k]
    first, [start_processes] with [join] true raises the
    raised-exception record of worker [k]: its pid is the pid [k] was
    started with and its message is the header for [k] followed by the
    traceback, then by the error report if there is one. *)
Theorem launch_reports_raised_exception {Args} E
    (fn : nat -> Args -> fn_outcome) args n k ex tb
    daemon start_method rest waits s :
  _supports_context E = true →
  start_method ∈ start_methods E →
  _pr_set_pdeathsig E SIGINT = Ok tt →
  (∀ i j, (i < n)%nat → (j < n)%nat →
          new_sentinel E i = new_sentinel E j → i = j) →
  (∀ i, (i < n)%nat → is_Some (on_terminate E i)) →
  (k < n)%nat →
  fn k args = fn_raises ex tb →
  is_Exception ex = true →
  ∃ s',
    start_processes E fn args (Z.of_nat n) true daemon start_method
                    ((new_sentinel E k :: rest) :: waits) s
    = (Raise (WorkerRaisedException k (new_pid E k) (error_header k +:+ tb)
                (get_error E (new_pid E k))), s')
    ∧ ∀ p, p ∈ processes (ctx s') → is_alive p = false.
Proof.
  intros Hver Hmeth Hsig Hinj Hterm Hk Hfn Hex.
  rewrite start_processes_launch by done. simpl. rewrite Nat2Z.id.
  set (c := launched E fn args n).
  set (ready := new_sentinel E k :: rest).
  assert (_wrap E fn k args [] = mkWrapped (Raise (SystemExit 1)) [tb] true)
    as Hwrap.
  { rewrite (_wrap_raises E fn k args [] ex tb Hsig Hfn), Hex. by destruct ex. }
  destruct (launched_process E fn args n k Hk) as [Hp Hq].
  pose proof (launched_sentinel E fn args n k Hinj Hk) as Hs.
  assert (fate (start_worker E fn args k).1 = Some 1) as Hfate.
  { unfold start_worker, exec_fn, fate. simpl. by rewrite Hwrap. }
  assert (designated ready c = Some k) as Hd.
  { unfold designated. rewrite bool_decide_false.
    - unfold ready.
      rewrite (scan_ready_step _ rest (mkState c [EvWait]) k _ 1 Hs Hp Hfate).
      done.
    - rewrite map_size_empty_iff. intros Hempty. fold c in Hs.
      by rewrite Hempty in Hs. }
  destruct (join_raises E ready c k Hd) as (e & s1 & Hrun).
  { intros p (i & Hi)%list_elem_of_lookup.
    assert (i < n)%nat as Hin.
    { apply lookup_lt_Some in Hi. unfold c in Hi.
      by rewrite (proj1 (launched_lengths E fn args n)) in Hi. }
    destruct (launched_process E fn args n i Hin) as [Hi' _].
    fold c in Hi'. rewrite Hi' in Hi. injection Hi as <-.
    right. simpl. by apply Hterm. }
  assert (error_queues c !! k = Some [tb]) as Hq'.
  { unfold c. rewrite Hq. unfold start_worker, exec_fn. simpl. by rewrite Hwrap. }
  destruct (join_failure_outcome E ready c k _ _ _ _ Hd Hp Hq' Hrun ltac:(done))
    as (cd & _ & _ & [= ->] & _).
  destruct (join_failure E ready c k _ _ Hd Hrun ltac:(done))
    as (s2 & Hcas & Hfail & _ & pk & ck & Hpk & _).
  destruct (raise_failure_effect _ _ _ _ _ _ Hpk Hfail) as [Hprocs _].
  pose proof (terminate_all_cascade _ _ _ (NoDup_seq _ _) Hcas) as Hcascade.
  eexists. unfold bind at 1. unfold join_loop. unfold bind at 1.
  rewrite join_on_state. fold ready. rewrite Hrun. simpl. split; [done|].
  intros p Hin. simpl in Hin. rewrite Hprocs in Hin.
  apply list_elem_of_lookup in Hin as [i Hi].
  destruct (Hcascade i) as [(p' & Hp' & Hdead) _].
  { apply elem_of_seq. apply lookup_lt_Some in Hi.
    destruct (processes_evolve_terminate_all _ _ _ _ Hcas) as [Hlen _]. lia. }
  congruence.
Qed.

Lemma launch_reports_raised_exception_witness :
  ∃ s',
    start_processes Demo.linux Demo.fn tt (Z.of_nat 3) true false "spawn"
                    ((new_sentinel Demo.linux 1 :: [10]) :: [])
                    (mkState (mkProcessContext [] [] ∅) [])
    = (Raise (WorkerRaisedException 1 (new_pid Demo.linux 1)
                (error_header 1 +:+ Demo.boom_traceback)
                (get_error Demo.linux (new_pid Demo.linux 1))), s')
    ∧ ∀ p, p ∈ processes (ctx s') → is_alive p = false.
Proof.
  apply (launch_reports_raised_exception Demo.linux Demo.fn tt 3 1%nat
           (OtherException "ValueError") Demo.boom_traceback false "spawn"
           [10] [] (mkState (mkProcessContext [] [] ∅) [])).
  - reflexivity.
  - right. left.
  - reflexivity.
  - intros i j Hi Hj Heq. simpl in Heq. lia.
  - intros i Hi. simpl. eauto.
  - lia.
  - reflexivity.
  - reflexivity.
Defined.

(** What [start_processes] rejects, and when: an unsupported Python
    version gives a [RuntimeError] before anything else happens; a start
    method that [multiprocessing.get_context] does not accept gives a
    [ValueError] after the error reporter was configured; in both cases
    no process is started and the arguments [fn], [args] and [nprocs]
    play no part. *)
Theorem start_processes_rejects {Args} E (fn : nat -> Args -> fn_outcome) args
    nprocs join daemon start_method waits s :
  (_supports_context E = false →
     start_processes E fn args nprocs join daemon start_method waits s
     = (Raise RuntimeError, s))
  ∧ (_supports_context E = true → start_method ∉ start_methods E →
     start_processes E fn args nprocs join daemon start_method waits s
     = (Raise ValueError, mkState (ctx s) (log s ++ [EvConfigure])%list)).
Proof.
  unfold start_processes, _python_version_check. split.
  - by intros ->.
  - intros -> Hnot. unfold bind at 1, lift. unfold bind at 1, emit.
    unfold bind at 1. by rewrite bool_decide_false by done.
Qed.

Lemma start_processes_rejects_witness :
  start_processes Demo.no_libc Demo.fn tt 3 true false "fork" []
                  (mkState (mkProcessContext [] [] ∅) [])
  = (Raise ValueError, mkState (mkProcessContext [] [] ∅) [EvConfigure]).
Proof.
  apply (start_processes_rejects Demo.no_libc Demo.fn tt 3 true false "fork" []
           (mkState (mkProcessContext [] [] ∅) [])).
  - reflexivity.
  - intros Hin. apply list_elem_of_singleton in Hin. discriminate Hin.
Defined.

(** [spawn] ignores the start method it is given, apart from a warning
    when it is not "spawn": it behaves as [start_processes] with the
    start method "spawn". *)
Theorem spawn_uses_spawn {Args} E (fn : nat -> Args -> fn_outcome) args
    nprocs join daemon start_method waits s :
  spawn E fn args nprocs join daemon start_method waits s
  = start_processes E fn args nprocs join daemon "spawn" waits
      (if bool_decide (start_method = "spawn") then s
       else mkState (ctx s) (log s ++ [EvWarn])%list).
Proof. unfold spawn, bind. by case_bool_decide. Qed.

(** ** A worker that ignores the termination request *)

Lemma terminate_all_Ok_stoppable indices s s' :
  NoDup indices →
  terminate_all indices s = (Ok tt, s') →
  ∀ i p, i ∈ indices → processes (ctx s) !! i = Some p → stoppable p.
Proof.
  revert s. induction indices as [|i0 indices IH]; intros s Hnd H i p Hi Hp.
  { by apply elem_of_nil in Hi. }
  apply NoDup_cons in Hnd as [Hnotin Hnd]. simpl in H.
  apply bind_inv in H as [(p0 & s0 & Hat & H)|[(e & _ & ?)|[_ ?]]]; [|done..].
  apply bind_inv in H as [([] & sa & Hterm & H)|[(e & _ & ?)|[_ ?]]]; [|done..].
  apply bind_inv in H as [([] & sb & Hjoin & H)|[(e & _ & ?)|[_ ?]]]; [|done..].
  apply process_at_Ok in Hat as [-> Hp0].
  destruct (cascade_round _ _ _ _ _ Hp0 Hterm Hjoin) as (Hother & _ & _).
  apply elem_of_cons in Hi as [->|Hi].
  - assert (p = p0) by congruence. subst p.
    apply Process_join_Ok in Hjoin as (q & c & Hq & Hf & _).
    unfold stoppable. destruct (exitcode p0) as [c0|] eqn:Hc0; [left; eauto|].
    right. unfold is_alive in Hterm. rewrite Hc0 in Hterm.
    apply Process_terminate_Ok in Hterm as (q' & Hq' & ->). simpl in Hq.
    rewrite list_lookup_insert_eq in Hq by (by eapply lookup_lt_Some).
    assert (q' = p0) by congruence. subst q'. injection Hq as <-.
    unfold fate in Hf. simpl in Hf. rewrite Hc0 in Hf. eauto.
  - assert (i ≠ i0) by (intros ->; done).
    eapply (IH sb); [done..|]. by rewrite Hother.
Qed.

(** [join] has no way past a worker that ignores the termination
    request: when a failing worker is designated while some worker is
    alive and will never exit after a termination request, the call
    neither returns nor raises. *)
Theorem join_waits_for_unstoppable_worker E ready c k i p :
  designated ready c = Some k →
  processes (ctx (after_scan ready c)) !! i = Some p →
  exitcode p = None →
  term_exit p = None →
  (run (join E (Some ready)) c).1 = Blocked.
Proof.
  intros Hd Hp Halive Hterm. rewrite (join_designated E _ _ _ Hd).
  set (s1 := after_scan ready c) in *.
  destruct (terminate_all (seq 0 (length (processes (ctx s1)))) s1)
    as [rc s2] eqn:Hcas.
  unfold bind. rewrite Hcas. destruct rc as [[]|e|]; [| |done].
  - exfalso.
    destruct (terminate_all_Ok_stoppable _ _ _ (NoDup_seq _ _) Hcas i p)
      as [[c0 Hc0]|[c0 Hc0]]; [|done|congruence..].
    apply elem_of_seq. apply lookup_lt_Some in Hp. lia.
  - exfalso. eapply terminate_all_no_raise; [|exact Hcas].
    intros j Hj. apply elem_of_seq in Hj. lia.
Qed.

Lemma join_waits_for_unstoppable_worker_witness :
  (run (join Demo.linux (Some [10]))
       (mkProcessContext [[]; []]
          [mkProcess 100 10 (Some 3) false None None;
           mkProcess 101 11 None false None None]
          (sentinel_dict [mkProcess 100 10 (Some 3) false None None;
                          mkProcess 101 11 None false None None]))).1
  = Blocked.
Proof.
  apply (join_waits_for_unstoppable_worker Demo.linux [10] _ 0%nat 1%nat
           (mkProcess 101 11 None false None None)).
  - vm_compute. reflexivity.
  - vm_compute. reflexivity.
  - reflexivity.
  - reflexivity.
Defined.

(** ** The record names the right worker *)

(** A failure record raised by [join] is about the worker that the call
    designated: its index is the designated one and its pid is the
    entry of [pids()] at that index. *)
Theorem failure_record_names_designated E w c e b s' :
  run (join E w) c = (Raise e, s') →
  failure_record e = Some b →
  (∃ ready, w = Some ready ∧ designated ready c = Some (error_index b))
  ∧ pids c !! error_index b = Some (error_pid b).
Proof.
  intros Hrun Hrec.
  destruct (decide (sentinels c = ∅)) as [Hempty|Hne].
  { by rewrite join_joined in Hrun by done. }
  assert (size (sentinels c) ≠ 0%nat) as Hsize by by rewrite map_size_empty_iff.
  destruct w as [ready|].
  2:{ unfold run, join, bind, get_ctx, emit, block in Hrun. simpl in Hrun.
      by rewrite bool_decide_false in Hrun by done. }
  pose proof Hrun as Hrun'. rewrite join_unfold in Hrun' by done.
  destruct (scan_ready ready (mkState c [EvWait])) as [rs s1] eqn:Hscan.
  destruct rs as [[k|]|e0|]; [| done | | done].
  2:{ injection Hrun' as <- <-.
      by destruct (scan_ready_raises _ _ _ _ Hscan) as [[k ->]| ->]. }
  assert (designated ready c = Some k) as Hd.
  { unfold designated. rewrite bool_decide_false by done. by rewrite Hscan. }
  destruct (designated_process _ _ _ Hd) as [p0 Hp0].
  destruct (error_queues c !! k) as [q|] eqn:Hq.
  - destruct (join_failure_outcome _ _ _ _ _ _ _ _ Hd Hp0 Hq Hrun ltac:(done))
      as (cd & _ & _ & Hr & _).
    assert (error_index b = k ∧ error_pid b = pid p0) as [-> ->].
    { destruct q.
      - destruct (cd <? 0)%Z.
        + destruct (Signals E (- cd)); injection Hr as ->; [|done].
          by injection Hrec as <-.
        + injection Hr as ->. by injection Hrec as <-.
      - injection Hr as ->. by injection Hrec as <-. }
    split; [by eauto|]. unfold pids. by rewrite list_lookup_fmap, Hp0.
  - exfalso.
    destruct (join_failure _ _ _ _ _ _ Hd Hrun ltac:(done))
      as (s2 & _ & Hfail & Hqs & pk & ck & Hpk & _).
    rewrite (raise_failure_no_queue E k s2 pk) in Hfail
      by (by rewrite ?Hqs).
    injection Hfail as <- _. done.
Qed.

Lemma failure_record_names_designated_witness :
  (∃ ready, Some [11] = Some ready
            ∧ designated ready Demo.context3 = Some 1%nat)
  ∧ pids Demo.context3 !! 1%nat = Some 101.
Proof.
  apply (failure_record_names_designated Demo.linux (Some [11]) Demo.context3
           (WorkerRaisedException 1 101
              (error_header 1 +:+ Demo.boom_traceback) (Some "core dumped"))
           (mkSubprocessException 1 101
              (Some ((error_header 1 +:+ Demo.boom_traceback)
                      +:+ captured_errors_banner +:+ "core dumped")))
           Demo.failed3.2).
  - vm_compute. reflexivity.
  - reflexivity.
Defined.
